(** * FootballAPI (fullapi.php): query, filter, aggregate and predict

    A shallow embedding of the class [FootballAPI] of [src/fullapi.php] and
    the properties of its request pipeline.

    Conventions of the embedding.
    - PHP integers are [Z].  A PHP float is modelled by the rational it
      stands for, and [round($x, $p)] rounds half away from zero on
      rationals; [round($x, 2)] returns a number of hundredths, which in
      PHP is the double nearest to it.  The statistics are stated through
      these rationals where the property does not hang on the last bits of
      a double (ranges, numbers of hundredths, equal computations); where
      it does, [Binary64] gives the doubles themselves.  Sums are exact
      here: a property that needs PHP's sums to be exact too (no integer
      overflow, no float beyond 2^53) says so in a hypothesis.
    - The file is compiled with [declare(strict_types=1)]: a call that hands
      an integer or [null] to a parameter declared [string] raises a
      [TypeError].  [TypeError] is an [\Error], which neither
      [catch (\Exception $e)] of the file catches, so it ends the request.
      Code that can raise it returns a [result].
    - The request's parameters are a mapping of names to strings ([$_GET]
      without nested arrays).  PHP turns a name that is the decimal writing
      of an integer into an integer key; the mapping keeps the name, and
      [integer_key] tells such a name.
    - A match record has string team names and date, and a score object
      whose fields are decoded JSON values of any kind, each of them
      possibly missing. *)

From Stdlib Require Import ZArith QArith Qround Qabs List String Ascii Bool Lia Lqa.
From Stdlib Require Import DecimalString Permutation.
From Stdlib Require DecimalPos DecimalZ.
From Stdlib Require Import Sorted SpecFloat.
Import ListNotations.

Open Scope string_scope.
Open Scope Z_scope.

(** ** Results of code that may raise *)

Inductive result (A : Type) : Type :=
| Ok (a : A)
| TypeError.

Arguments Ok {A} a.
Arguments TypeError {A}.

Definition bind {A B : Type} (r : result A) (k : A -> result B) : result B :=
  match r with
  | Ok a => k a
  | TypeError => TypeError
  end.

Notation "x <- r ;; k" := (bind r (fun x => k))
  (at level 61, r at next level, right associativity).

(** ** PHP built-ins on strings *)

Module Php.

Definition PHP_INT_MAX : Z := 9223372036854775807.
Definition PHP_INT_MIN : Z := -9223372036854775808.

Definition code (c : ascii) : Z := Z.of_nat (nat_of_ascii c).

Definition lower_char (c : ascii) : ascii :=
  if (65 <=? code c) && (code c <=? 90)
  then ascii_of_nat (nat_of_ascii c + 32)
  else c.

Fixpoint strtolower (s : string) : string :=
  match s with
  | EmptyString => EmptyString
  | String c s' => String (lower_char c) (strtolower s')
  end.

(** [strcasecmp]: the sign of the byte-wise comparison of the two strings
    with ASCII letters folded to lower case. *)
Definition strcasecmp (a b : string) : Z :=
  match String.compare (strtolower a) (strtolower b) with
  | Eq => 0
  | Lt => -1
  | Gt => 1
  end.

(** [empty($s)] on a string: the empty string and ["0"] are empty. *)
Definition empty (s : string) : bool :=
  String.eqb s "" || String.eqb s "0".

(** [(bool)$s] on a string. *)
Definition to_bool (s : string) : bool := negb (empty s).

Definition str_starts_with (haystack needle : string) : bool :=
  String.prefix needle haystack.

(** [str_replace('score_', '', $s)]: every occurrence, found left to right
    in the subject, is removed; [skip] counts the characters of an
    occurrence still to be dropped. *)
Fixpoint remove_score_ (skip : nat) (s : string) : string :=
  match s with
  | EmptyString => EmptyString
  | String c s' =>
      match skip with
      | S k => remove_score_ k s'
      | O => if String.prefix "score_" s
             then remove_score_ 5 s'
             else String c (remove_score_ 0 s')
      end
  end.

Definition str_replace_score_ (s : string) : string := remove_score_ 0 s.

(** *** htmlspecialchars($s, ENT_QUOTES, 'UTF-8') *)

Definition is_trail (c : ascii) : bool :=
  (128 <=? code c) && (code c <=? 191).

(** Well-formed UTF-8: shortest forms only, no surrogates, nothing above
    U+10FFFF. *)
Fixpoint valid_utf8 (fuel : nat) (s : string) : bool :=
  match fuel with
  | O => match s with EmptyString => true | _ => false end
  | S fuel' =>
      match s with
      | EmptyString => true
      | String c0 r0 =>
          let b0 := code c0 in
          if b0 <? 128 then valid_utf8 fuel' r0
          else if b0 <? 194 then false
          else if b0 <? 224 then
            match r0 with
            | String c1 r1 => is_trail c1 && valid_utf8 fuel' r1
            | _ => false
            end
          else if b0 <? 240 then
            match r0 with
            | String c1 (String c2 r2) =>
                let cp := (b0 - 224) * 4096 + (code c1 - 128) * 64
                          + (code c2 - 128) in
                is_trail c1 && is_trail c2 && (2048 <=? cp)
                && negb ((55296 <=? cp) && (cp <=? 57343))
                && valid_utf8 fuel' r2
            | _ => false
            end
          else if b0 <? 245 then
            match r0 with
            | String c1 (String c2 (String c3 r3)) =>
                let cp := (b0 - 240) * 262144 + (code c1 - 128) * 4096
                          + (code c2 - 128) * 64 + (code c3 - 128) in
                is_trail c1 && is_trail c2 && is_trail c3
                && (65536 <=? cp) && (cp <=? 1114111)
                && valid_utf8 fuel' r3
            | _ => false
            end
          else false
      end
  end.

(** The double quote, code 34. *)
Definition double_quote : ascii := ascii_of_nat 34.

Definition escape_char (c : ascii) : string :=
  if Ascii.eqb c "&" then "&amp;"
  else if Ascii.eqb c double_quote then "&quot;"
  else if Ascii.eqb c "'" then "&#039;"
  else if Ascii.eqb c "<" then "&lt;"
  else if Ascii.eqb c ">" then "&gt;"
  else String c EmptyString.

Fixpoint escape (s : string) : string :=
  match s with
  | EmptyString => EmptyString
  | String c s' => escape_char c ++ escape s'
  end.

(** Without [ENT_SUBSTITUTE] or [ENT_IGNORE] an ill-formed input gives the
    empty string. *)
Definition htmlspecialchars (s : string) : string :=
  if valid_utf8 (String.length s) s then escape s else "".

(** *** filter_var *)

(** The white space that the filters strip at both ends. *)
Definition filter_space (c : ascii) : bool :=
  let n := code c in
  (n =? 32) || (n =? 9) || (n =? 13) || (n =? 11) || (n =? 10).

Fixpoint ltrim (s : string) : string :=
  match s with
  | String c s' => if filter_space c then ltrim s' else s
  | EmptyString => EmptyString
  end.

Fixpoint rtrim (s : string) : string :=
  match s with
  | EmptyString => EmptyString
  | String c s' =>
      match rtrim s' with
      | EmptyString => if filter_space c then EmptyString
                       else String c EmptyString
      | t => String c t
      end
  end.

Definition filter_trim (s : string) : string := rtrim (ltrim s).

Definition digit (c : ascii) : option Z :=
  let n := code c in
  if (48 <=? n) && (n <=? 57) then Some (n - 48) else None.

Fixpoint digits (acc : Z) (s : string) : option Z :=
  match s with
  | EmptyString => Some acc
  | String c s' =>
      match digit c with
      | Some d => digits (acc * 10 + d) s'
      | None => None
      end
  end.

(** An unsigned decimal numeral as [FILTER_VALIDATE_INT] reads it: not
    empty, and a leading zero only in ["0"] itself. *)
Definition unsigned_int (s : string) : option Z :=
  match s with
  | EmptyString => None
  | String c s' =>
      if Ascii.eqb c "0"
      then match s' with EmptyString => Some 0 | _ => None end
      else digits 0 s
  end.

(** [filter_var($s, FILTER_VALIDATE_INT)]; [None] is PHP's [false]. *)
Definition filter_validate_int (s : string) : option Z :=
  let t := filter_trim s in
  let signed :=
    match t with
    | String c t' =>
        if Ascii.eqb c "-" then option_map Z.opp (unsigned_int t')
        else if Ascii.eqb c "+" then unsigned_int t'
        else unsigned_int t
    | EmptyString => None
    end in
  match signed with
  | Some z => if (PHP_INT_MIN <=? z) && (z <=? PHP_INT_MAX) then Some z
              else None
  | None => None
  end.

(** A name that PHP stores as an integer array key: the decimal writing
    of an integer of the platform's range, without sign or with [-], and
    without a leading zero; ["-0"] is not one. *)
Definition integer_key (key : string) : bool :=
  match key with
  | String c key' =>
      if Ascii.eqb c "-"
      then match unsigned_int key' with
           | Some z => (0 <? z) && (z <=? - PHP_INT_MIN)
           | None => false
           end
      else match unsigned_int key with
           | Some z => z <=? PHP_INT_MAX
           | None => false
           end
  | EmptyString => false
  end.

(** [filter_var($s, FILTER_VALIDATE_BOOLEAN, FILTER_NULL_ON_FAILURE)];
    [None] is PHP's [null]. *)
Definition filter_validate_boolean (s : string) : option bool :=
  let t := strtolower (filter_trim s) in
  if String.eqb t "1" || String.eqb t "true" || String.eqb t "on"
     || String.eqb t "yes" then Some true
  else if String.eqb t "0" || String.eqb t "false" || String.eqb t "off"
     || String.eqb t "no" || String.eqb t "" then Some false
  else None.

(** [(string)$n] on an integer. *)
Definition string_of_Z (z : Z) : string :=
  NilZero.string_of_int (Z.to_int z).

(** *** round *)

(** [round($x, $precision)] on exact rationals: half away from zero. *)
Definition round (x : Q) (precision : nat) : Q :=
  let p := 10 ^ Z.of_nat precision in
  let scaled := (x * inject_Z p)%Q in
  let n := if Qle_bool 0 scaled
           then Qfloor (scaled + (1 # 2))%Q
           else Qceiling (scaled - (1 # 2))%Q in
  (inject_Z n / inject_Z p)%Q.

(** *** Floats to integers *)

(** The integer part of a float, towards zero. *)
Definition truncate (x : Q) : Z :=
  if Qle_bool 0 x then Qfloor x else Qceiling x.

(** A float beyond the integers of the platform is taken modulo 2^64. *)
Definition wrap (z : Z) : Z :=
  (z - PHP_INT_MIN) mod 2 ^ 64 + PHP_INT_MIN.

(** [$a <=> $b] where each side is an integer or [false] ([None]): with a
    boolean on one side both are compared as booleans. *)
Definition spaceship (a b : option Z) : comparison :=
  match a, b with
  | Some x, Some y => Z.compare x y
  | None, None => Eq
  | None, Some y => if y =? 0 then Eq else Lt
  | Some x, None => if x =? 0 then Eq else Gt
  end.

End Php.

Import Php.

(** ** Doubles

    IEEE 754 binary64 through the executable specification of the Standard
    Library: a finite double is a sign, a mantissa and an exponent, and
    the operations round to nearest, ties to even. *)

Module Binary64.

Definition prec : Z := 53.
Definition emax : Z := 1024.

(** The double of an integer. *)
Definition of_Z (z : Z) : spec_float := binary_normalize prec emax z 0 false.

Definition add : spec_float -> spec_float -> spec_float := SFadd prec emax.
Definition sub : spec_float -> spec_float -> spec_float := SFsub prec emax.
Definition div : spec_float -> spec_float -> spec_float := SFdiv prec emax.
Definition abs : spec_float -> spec_float := SFabs.
Definition leb : spec_float -> spec_float -> bool := SFleb.

(** The double nearest to a rational, as the division of its numerator by
    its denominator in lowest terms, both below 2^53.  It is what
    [round($x, 2)] returns for a number of hundredths: its last step
    divides a whole number by [100.0]. *)
Definition of_Q (q : Q) : spec_float :=
  let r := Qred q in
  div (of_Z (Qnum r)) (of_Z (Z.pos (Qden r))).

(** The rational a finite double stands for. *)
Definition exact (x : spec_float) : Q :=
  match x with
  | S754_finite s m e =>
      let n := if s then Z.neg m else Z.pos m in
      if 0 <=? e then inject_Z (n * 2 ^ e) else n # (2 ^ Z.to_pos (- e))
  | _ => 0%Q
  end.

End Binary64.

(** ** Built-ins left abstract

    The date parser behind [strtotime] and [new \DateTime], the reading of
    a string as a number, and the writing of a float; the development
    holds whatever these functions are.  [strtotime] gives a Unix
    timestamp, [None] being PHP's [false]; [new_DateTime] gives the instant
    of the object built, [None] when the constructor throws.  [numeric]
    gives the number a numeric string stands for, [None] for every other
    string; [string_to_int] and [string_to_float] are the casts [(int)$s]
    and [(float)$s], which read the longest numeric prefix;
    [float_to_string] is [(string)$f]. *)

Class Builtins : Type := {
  strtotime : string -> option Z;
  new_DateTime : string -> option Z;
  numeric : string -> option Q;
  string_to_int : string -> Z;
  string_to_float : string -> Q;
  float_to_string : Q -> string
}.

(** [is_numeric($s)] on a string. *)
Definition is_numeric `{Builtins} (s : string) : bool :=
  match numeric s with Some _ => true | None => false end.

(** ** Data model *)

(** A decoded JSON value other than [null].  A number written with a
    fraction or an exponent, or beyond the integers of the platform, is a
    float; an object or a list is an array, of which the casts only see
    whether it is empty. *)
Inductive value : Type :=
| VInt (z : Z)
| VFloat (q : Q)
| VStr (s : string)
| VBool (b : bool)
| VArray (elements : nat).

(** A decoded element of ["matches"].  A field is [None] when [isset]
    fails on it (key missing or [null]).  [score] is the score when it is
    an array, with its fields that are not [null]; [extra] holds the
    remaining top-level fields, a score that is not an array among them,
    each as the string [(string)] turns it into. *)
Record MatchRecord : Type := mkMatch {
  home_team : option string;
  away_team : option string;
  date : option string;
  score : option (list (string * value));
  extra : list (string * string)
}.

(** A PHP array with string keys, in insertion order. *)
Definition array (V : Type) : Type := list (string * V).

Fixpoint array_get {V : Type} (a : array V) (key : string) : option V :=
  match a with
  | [] => None
  | (k, v) :: a' => if String.eqb k key then Some v else array_get a' key
  end.

(** [$a[$key] = $v]: an existing key keeps its place, a new one is
    appended. *)
Fixpoint array_set {V : Type} (a : array V) (key : string) (v : V) : array V :=
  match a with
  | [] => [(key, v)]
  | (k, w) :: a' => if String.eqb k key then (k, v) :: a'
                    else (k, w) :: array_set a' key v
  end.

(** [isset($match[$f]) && strcasecmp($match[$f], $team) === 0] *)
Definition field_is (f : option string) (team : string) : bool :=
  match f with
  | Some s => strcasecmp s team =? 0
  | None => false
  end.

Definition count {A : Type} (l : list A) : Z := Z.of_nat (List.length l).

(** [array_slice($a, $offset, $length)] on a list. *)
Definition array_slice {A : Type} (a : list A) (offset length : Z) : list A :=
  let n := count a in
  let offset := if offset >? n then n
                else if offset <? 0 then Z.max 0 (n + offset)
                else offset in
  let length := if length <? 0 then n - offset + length else length in
  firstn (Z.to_nat length) (skipn (Z.to_nat offset) a).

(** [$a / $b] *)
Definition div (a b : Z) : Q := (inject_Z a / inject_Z b)%Q.

(** [$match['score'][$field]] when [isset] holds for it, as stored. *)
Definition score_value (m : MatchRecord) (field : string) : option value :=
  match score m with
  | Some fields => array_get fields field
  | None => None
  end.

Section Statistics.

Context `{Builtins}.

(** ** Casts and comparison of a decoded value *)

(** [(int)$v] *)
Definition intval (v : value) : Z :=
  match v with
  | VInt z => z
  | VFloat q => wrap (truncate q)
  | VStr s => string_to_int s
  | VBool b => if b then 1 else 0
  | VArray elements => if (elements =? 0)%nat then 0 else 1
  end.

(** [(float)$v] *)
Definition floatval (v : value) : Q :=
  match v with
  | VInt z => inject_Z z
  | VFloat q => q
  | VStr s => string_to_float s
  | VBool b => if b then 1%Q else 0%Q
  | VArray elements => if (elements =? 0)%nat then 0%Q else 1%Q
  end.

(** [(string)$v]; an array gives ["Array"], with a warning. *)
Definition strval (v : value) : string :=
  match v with
  | VInt z => string_of_Z z
  | VFloat q => float_to_string q
  | VStr s => s
  | VBool b => if b then "1" else ""
  | VArray _ => "Array"
  end.

(** [$v > 0], the value as stored: a numeric string compares as its
    number and any other string as a string with ["0"]; a boolean compares
    with [false]; an array is greater than any integer. *)
Definition greater_than_zero (v : value) : bool :=
  match v with
  | VInt z => z >? 0
  | VFloat q => negb (Qle_bool q 0)
  | VStr s =>
      match numeric s with
      | Some q => negb (Qle_bool q 0)
      | None => match String.compare "0" s with Lt => true | _ => false end
      end
  | VBool b => b
  | VArray _ => true
  end.

(** [(int)$match['score'][$field]] when [isset] holds for the field. *)
Definition score_field (m : MatchRecord) (field : string) : option Z :=
  option_map intval (score_value m field).

(** [isset($match['score']['home']) && isset($match['score']['away'])],
    with both values cast to integers. *)
Definition valid_score (m : MatchRecord) : option (Z * Z) :=
  match score_field m "home", score_field m "away" with
  | Some h, Some a => Some (h, a)
  | _, _ => None
  end.

Definition has_valid_score (m : MatchRecord) : bool :=
  match valid_score m with Some _ => true | None => false end.

(** ** Statistics *)

(** The comparison with 0 is on the values as stored, without a cast. *)
Definition calculateBothTeamsScoredPercentage (matches : list MatchRecord) : Q :=
  let matchCount := count matches in
  if matchCount =? 0 then 0%Q
  else
    let bothTeamsScoredCount :=
      fold_left (fun (count : Z) (m : MatchRecord) =>
                   match score_value m "home", score_value m "away" with
                   | Some home, Some away =>
                       count + (if greater_than_zero home
                                   && greater_than_zero away then 1 else 0)
                   | _, _ => count
                   end) matches 0 in
    round (div bothTeamsScoredCount matchCount * 100)%Q 2.

Record AverageGoals : Type := mkAverageGoals {
  average_total_goals : Q;
  average_home_goals : Q;
  average_away_goals : Q
}.

(** The goals are cast to integers and added as integers; a sum beyond
    the integers of the platform goes on as a float, which stands for the
    same number here. *)
Definition calculateAverageGoals (matches : list MatchRecord) : AverageGoals :=
  match matches with
  | [] => mkAverageGoals 0 0 0
  | _ =>
      let totalMatches := count matches in
      let goals :=
        fold_left (fun (acc : Z * Z * Z) (m : MatchRecord) =>
                     let '(total, home, away) := acc in
                     let homeGoals :=
                       match score_field m "home" with Some h => h | None => 0 end in
                     let awayGoals :=
                       match score_field m "away" with Some a => a | None => 0 end in
                     (total + homeGoals + awayGoals, home + homeGoals,
                      away + awayGoals)) matches (0, 0, 0) in
      let '(total, home, away) := goals in
      mkAverageGoals (round (div total totalMatches) 2)
                     (round (div home totalMatches) 2)
                     (round (div away totalMatches) 2)
  end.

Definition involves (team : string) (m : MatchRecord) : bool :=
  field_is (home_team m) team || field_is (away_team m) team.

Definition calculateFormIndex (matches : list MatchRecord) (team : string)
    (recentGames : Z) : Q :=
  if empty team then 0%Q
  else
    let teamMatches := filter (involves team) matches in
    match teamMatches with
    | [] => 0%Q
    | _ =>
        let recentMatches :=
          array_slice teamMatches 0 (Z.min (count teamMatches) recentGames) in
        let points :=
          fold_left (fun (sum : Z) (m : MatchRecord) =>
                       match home_team m, away_team m, valid_score m with
                       | Some home, Some _, Some (homeScore, awayScore) =>
                           let isHomeTeam := strcasecmp home team =? 0 in
                           if isHomeTeam then
                             if homeScore >? awayScore then sum + 3
                             else if homeScore =? awayScore then sum + 1
                             else sum
                           else
                             if awayScore >? homeScore then sum + 3
                             else if homeScore =? awayScore then sum + 1
                             else sum
                       | _, _, _ => sum
                       end) recentMatches 0 in
        let maxPossiblePoints := count recentMatches * 3 in
        if maxPossiblePoints >? 0
        then round (div points maxPossiblePoints * 100)%Q 2
        else 0%Q
    end.

Record Tally : Type := mkTally {
  home_wins : Z;
  away_wins : Z;
  draws : Z
}.

(** The reduction shared by [calculateHeadToHeadStats] and
    [predictWinner]. *)
Definition tally (validMatches : list MatchRecord) : Tally :=
  fold_left (fun (acc : Tally) (m : MatchRecord) =>
               match valid_score m with
               | Some (homeScore, awayScore) =>
                   if homeScore >? awayScore
                   then mkTally (home_wins acc + 1) (away_wins acc) (draws acc)
                   else if homeScore <? awayScore
                   then mkTally (home_wins acc) (away_wins acc + 1) (draws acc)
                   else mkTally (home_wins acc) (away_wins acc) (draws acc + 1)
               | None => acc
               end) validMatches (mkTally 0 0 0).

Record HeadToHeadStats : Type := mkHeadToHeadStats {
  h2h_home_wins : Z;
  h2h_away_wins : Z;
  h2h_draws : Z;
  home_win_percentage : Q;
  away_win_percentage : Q;
  draw_percentage : Q
}.

Definition calculateHeadToHeadStats (matches : list MatchRecord) : HeadToHeadStats :=
  match matches with
  | [] => mkHeadToHeadStats 0 0 0 0 0 0
  | _ =>
      let validMatches := filter has_valid_score matches in
      let totalMatches := count validMatches in
      if totalMatches =? 0 then mkHeadToHeadStats 0 0 0 0 0 0
      else
        let stats := tally validMatches in
        mkHeadToHeadStats (home_wins stats) (away_wins stats) (draws stats)
          (round (div (home_wins stats) totalMatches * 100)%Q 2)
          (round (div (away_wins stats) totalMatches * 100)%Q 2)
          (round (div (draws stats) totalMatches * 100)%Q 2)
  end.

(** [getAvailableTeams]: the names, then the first spelling of each
    lower-cased name, in order of first appearance. *)
Definition team_names (matches : list MatchRecord) : list string :=
  fold_left (fun (acc : list string) (m : MatchRecord) =>
               let acc1 := match home_team m with
                           | Some t => if empty t then acc else (acc ++ [t])%list
                           | None => acc
                           end in
               match away_team m with
               | Some t => if empty t then acc1 else (acc1 ++ [t])%list
               | None => acc1
               end) matches [].

Definition getAvailableTeams (matches : list MatchRecord) : list string :=
  let uniqueTeams :=
    fold_left (fun (uniqueTeams : array string) (team : string) =>
                 let lowerTeam := strtolower team in
                 match array_get uniqueTeams lowerTeam with
                 | Some _ => uniqueTeams
                 | None => array_set uniqueTeams lowerTeam team
                 end) (team_names matches) [] in
  map snd uniqueTeams.

(** The goals are cast to floats and added as floats. *)
Definition calculateExpectedGoals (team : string) (matches : list MatchRecord) : Q :=
  if empty team then 0%Q
  else
    let teamMatches := filter (involves team) matches in
    let validMatches := filter has_valid_score teamMatches in
    match validMatches with
    | [] => 0%Q
    | _ =>
        let totalGoals :=
          fold_left (fun (sum : Q) (m : MatchRecord) =>
                       let isHomeTeam :=
                         strcasecmp (match home_team m with
                                     | Some h => h | None => "" end) team =? 0 in
                       match score_value m "home", score_value m "away" with
                       | Some home, Some away =>
                           (sum + floatval (if isHomeTeam then home else away))%Q
                       | _, _ => sum
                       end) validMatches 0%Q in
        round (totalGoals / inject_Z (count validMatches))%Q 2
    end.

Definition both_scored (m : MatchRecord) : bool :=
  match valid_score m with
  | Some (h, a) => (h >? 0) && (a >? 0)
  | None => false
  end.

Definition calculateBothTeamsToScoreProb (matches : list MatchRecord) : Q :=
  let validMatches := filter has_valid_score matches in
  match validMatches with
  | [] => 0%Q
  | _ =>
      let bothScoredCount := count (filter both_scored validMatches) in
      round (div bothScoredCount (count validMatches) * 100)%Q 2
  end.

End Statistics.

(** ** Parameter mappings *)

(** A value of the sanitized mapping: a string, or for [page] and
    [page_size] an integer or [null]. *)
Inductive pvalue : Type :=
| PStr (s : string)
| PInt (z : Z)
| PNull.

(** A mapping all of whose values are strings. *)
Definition strings (params : array string) : array pvalue :=
  map (fun kv => (fst kv, PStr (snd kv))) params.

(** [case (str_starts_with($key, 'score_')):] inside [switch ($key)]: the
    label is a boolean, which [switch] compares loosely with the key. *)
Definition score_case (key : string) : bool :=
  Bool.eqb (to_bool key) (str_starts_with key "score_").

(** ** Filtering *)

Section Filter.

Context `{Builtins}.

Definition matchesTeam (m : MatchRecord) (value : string) : bool :=
  match home_team m, away_team m with
  | Some home, Some away =>
      (strcasecmp home value =? 0) || (strcasecmp away value =? 0)
  | _, _ => false
  end.

Definition matchesHomeTeam (m : MatchRecord) (value : string) : bool :=
  field_is (home_team m) value.

Definition matchesAwayTeam (m : MatchRecord) (value : string) : bool :=
  field_is (away_team m) value.

Definition matchesDate (m : MatchRecord) (value : string) : bool :=
  match date m with
  | None => false
  | Some d =>
      match new_DateTime d with
      | None => false
      | Some matchDate =>
          match new_DateTime value with
          | None => false
          | Some paramDate => matchDate >=? paramDate
          end
      end
  end.

Definition matchesScore (m : MatchRecord) (key value : string) : bool :=
  let scoreType := str_replace_score_ key in
  match score_value m scoreType with
  | None => false
  | Some v => String.eqb (strval v) value
  end.

Definition matchesBothTeamsScored (m : MatchRecord) (value : string) : bool :=
  match valid_score m with
  | None => false
  | Some (h, a) =>
      let bothScored := (h >? 0) && (a >? 0) in
      match filter_validate_boolean value with
      | None => false
      | Some expected => Bool.eqb bothScored expected
      end
  end.

(** [$match[$key]] as a string when [isset] holds; a score that is an
    array casts to ["Array"]. *)
Definition top_level (m : MatchRecord) (key : string) : option string :=
  if String.eqb key "home_team" then home_team m
  else if String.eqb key "away_team" then away_team m
  else if String.eqb key "date" then date m
  else if String.eqb key "score"
  then match score m with
       | Some _ => Some "Array"
       | None => array_get (extra m) key
       end
  else array_get (extra m) key.

Definition matchesDefault (m : MatchRecord) (key value : string) : bool :=
  field_is (top_level m key) value.

(** The body of [matchParameter], entered with a string. *)
Definition matchParameterStr (m : MatchRecord) (key value : string) : bool :=
  if String.eqb key "team" then matchesTeam m value
  else if String.eqb key "home_team" then matchesHomeTeam m value
  else if String.eqb key "away_team" then matchesAwayTeam m value
  else if String.eqb key "date" then matchesDate m value
  else if score_case key then matchesScore m key value
  else if String.eqb key "both_teams_scored" then matchesBothTeamsScored m value
  else matchesDefault m key value.

(** [matchParameter(array $match, string $key, string $value)]: an
    argument that is not a string is refused at the call. *)
Definition matchParameter (m : MatchRecord) (key : string) (value : pvalue)
    : result bool :=
  match value with
  | PStr v => Ok (matchParameterStr m key v)
  | PInt _ | PNull => TypeError
  end.

(** The callback of [filterMatches]: the loop stops at the first
    parameter that fails. *)
Fixpoint matchesAll (m : MatchRecord) (params : array pvalue) : result bool :=
  match params with
  | [] => Ok true
  | (key, value) :: params' =>
      ok <- matchParameter m key value ;;
      if ok then matchesAll m params' else Ok false
  end.

(** [array_filter] with a callback that may raise. *)
Fixpoint array_filter (f : MatchRecord -> result bool) (l : list MatchRecord)
    : result (list MatchRecord) :=
  match l with
  | [] => Ok []
  | m :: l' =>
      keep <- f m ;;
      rest <- array_filter f l' ;;
      Ok (if keep then m :: rest else rest)
  end.

Definition filterMatches (matches : list MatchRecord) (params : array pvalue)
    : result (list MatchRecord) :=
  match params with
  | [] => Ok matches
  | _ => array_filter (fun m => matchesAll m params) matches
  end.

(** ** Sorting by date, descending *)

(** [isset($a['date']) ? strtotime($a['date']) : 0] *)
Definition sort_date (m : MatchRecord) : option Z :=
  match date m with
  | Some d => strtotime d
  | None => Some 0
  end.

(** The comparison function given to [usort]. *)
Definition by_date (a b : MatchRecord) : comparison :=
  spaceship (sort_date b) (sort_date a).

End Filter.

(** [usort] is a stable sort: elements that compare equal keep their
    order.  When the comparison is a total preorder on the elements, the
    stably sorted list is unique, and insertion from the right computes
    it; this is the model.  When the comparison is not transitive on the
    elements, the list PHP returns depends on the steps of its sorting
    algorithm, and only the elements and their number are the same here:
    [by_date] is transitive unless a date that does not parse occurs
    beside a date before 1970 ([consistent_dates]), and the order of the
    sorted records is stated under that condition only. *)
Fixpoint insert {A : Type} (cmp : A -> A -> comparison) (x : A) (l : list A)
    : list A :=
  match l with
  | [] => [x]
  | y :: l' =>
      match cmp x y with
      | Gt => y :: insert cmp x l'
      | _ => x :: l
      end
  end.

Fixpoint usort {A : Type} (cmp : A -> A -> comparison) (l : list A) : list A :=
  match l with
  | [] => []
  | x :: l' => insert cmp x (usort cmp l')
  end.

(** ** Prediction *)

Section Prediction.

Context `{Builtins}.

Record Prediction : Type := mkPrediction {
  winner : string;
  confidence : Q
}.

Definition unknown_prediction : Prediction := mkPrediction "unknown" 0.

(** The head-to-head records of [predictWinner]: the home team at home
    and the away team away. *)
Definition h2hMatches (homeTeam awayTeam : string) (matches : list MatchRecord)
    : list MatchRecord :=
  filter (fun m =>
            match home_team m, away_team m with
            | Some home, Some away =>
                (strcasecmp home homeTeam =? 0) && (strcasecmp away awayTeam =? 0)
            | _, _ => false
            end) matches.

Definition predictWinner (homeTeam awayTeam : string) (matches : list MatchRecord)
    : Prediction :=
  if empty homeTeam || empty awayTeam
     || match matches with [] => true | _ => false end
  then unknown_prediction
  else
    let validMatches := filter has_valid_score (h2hMatches homeTeam awayTeam matches) in
    match validMatches with
    | [] => unknown_prediction
    | _ =>
        let stats := tally validMatches in
        let totalMatches := count validMatches in
        if (home_wins stats >? away_wins stats) && (home_wins stats >? draws stats)
        then mkPrediction "home" (round (div (home_wins stats) totalMatches) 2)
        else if (away_wins stats >? home_wins stats)
                && (away_wins stats >? draws stats)
        then mkPrediction "away" (round (div (away_wins stats) totalMatches) 2)
        else mkPrediction "draw" (round (div (draws stats) totalMatches) 2)
    end.

Definition calculateWinProbability (winnerPrediction : Prediction)
    (outcomeType : string) : Q :=
  if String.eqb (winner winnerPrediction) "unknown" then round (div 1 3) 2
  else if String.eqb (winner winnerPrediction) outcomeType
  then confidence winnerPrediction
  else
    let remainingProb := (1 - confidence winnerPrediction)%Q in
    let nonPredictedOutcomes := 2%Q in
    round (remainingProb / nonPredictedOutcomes)%Q 2.

Record ModelPredictions : Type := mkModelPredictions {
  randomForest : string;
  poisson_homeGoals : Q;
  poisson_awayGoals : Q;
  elo_homeWinProb : Q;
  elo_drawProb : Q;
  elo_awayWinProb : Q
}.

Record PredictionPayload : Type := mkPredictionPayload {
  homeExpectedGoals : Q;
  awayExpectedGoals : Q;
  bothTeamsToScoreProb : Q;
  predictedWinner : string;
  predictedConfidence : Q;
  modelPredictions : ModelPredictions
}.

Definition runPrediction (homeTeam awayTeam : string) (matches : list MatchRecord)
    : PredictionPayload :=
  let homeExpected := calculateExpectedGoals homeTeam matches in
  let awayExpected := calculateExpectedGoals awayTeam matches in
  let bothProb := calculateBothTeamsToScoreProb matches in
  let winnerPrediction := predictWinner homeTeam awayTeam matches in
  mkPredictionPayload homeExpected awayExpected bothProb
    (winner winnerPrediction) (confidence winnerPrediction)
    (mkModelPredictions
       (if String.eqb (winner winnerPrediction) "unknown"
        then "insufficient_data"
        else winner winnerPrediction ++ "_win")
       (round homeExpected 0) (round awayExpected 0)
       (calculateWinProbability winnerPrediction "home")
       (calculateWinProbability winnerPrediction "draw")
       (calculateWinProbability winnerPrediction "away")).

End Prediction.

(** ** Sanitizing the request's parameters *)

Section Request.

Context `{Builtins}.

(** One turn of the loop of [validateAndSanitizeParams].  A name that
    PHP holds as an integer key passes the string labels of the [switch]
    and reaches [str_starts_with($key, 'score_')], which takes strings:
    the call raises a [TypeError]. *)
Definition sanitize_entry (sanitizedParams : array pvalue) (key value : string)
    : result (array pvalue) :=
  if String.eqb value "" then Ok sanitizedParams
  else if String.eqb key "page" || String.eqb key "page_size" then
    Ok (array_set sanitizedParams key
          match filter_validate_int value with
          | Some n => PInt n
          | None => PNull
          end)
  else if String.eqb key "date" then
    match new_DateTime value with
    | Some _ => Ok (array_set sanitizedParams key (PStr (htmlspecialchars value)))
    | None => Ok sanitizedParams
    end
  else if String.eqb key "both_teams_scored" then
    if existsb (String.eqb (strtolower value)) ["true"; "false"; "1"; "0"]
    then Ok (array_set sanitizedParams key (PStr (strtolower value)))
    else Ok sanitizedParams
  else if integer_key key then TypeError
  else if score_case key then
    if is_numeric value
    then Ok (array_set sanitizedParams key (PStr (htmlspecialchars value)))
    else Ok sanitizedParams
  else Ok (array_set sanitizedParams key (PStr (htmlspecialchars value))).

Definition validateAndSanitizeParams (params : array string)
    : result (array pvalue) :=
  fold_left (fun acc kv =>
               sanitizedParams <- acc ;;
               sanitize_entry sanitizedParams (fst kv) (snd kv))
    params (Ok []).

(** ** The request *)

Definition DEFAULT_PAGE_SIZE : Z := 100.
Definition MAX_PAGE_SIZE : Z := 500.

Record TeamAnalysis : Type := mkTeamAnalysis {
  ta_home_team : string;
  ta_away_team : string;
  matches_count : Z;
  both_teams_scored_percentage : Q;
  average_goals : AverageGoals;
  home_form_index : Q;
  away_form_index : Q;
  head_to_head_stats : HeadToHeadStats
}.

Record Response : Type := mkResponse {
  total_matches : Z;
  page : Z;
  page_size : Z;
  matches : list MatchRecord;
  team_analysis : option TeamAnalysis;
  prediction : option PredictionPayload;
  teams : list string
}.

(** [isset($params[$key])] for [page] and [page_size], which the sanitizer
    only ever sets to an integer or to [null]. *)
Definition isset_int (params : array pvalue) (key : string) : option Z :=
  match array_get params key with
  | Some (PInt n) => Some n
  | _ => None
  end.

(** [$params[$key] ?? ''] for a team name. *)
Definition string_or_empty (params : array pvalue) (key : string) : string :=
  match array_get params key with
  | Some (PStr s) => s
  | _ => ""
  end.

(** The records of [$teamAnalysisMatches]: the two teams in either
    orientation. *)
Definition teamAnalysisMatches (homeTeam awayTeam : string)
    (filteredMatches : list MatchRecord) : list MatchRecord :=
  filter (fun m =>
            match home_team m, away_team m with
            | Some home, Some away =>
                ((strcasecmp home homeTeam =? 0) && (strcasecmp away awayTeam =? 0))
                || ((strcasecmp home awayTeam =? 0) && (strcasecmp away homeTeam =? 0))
            | _, _ => false
            end) filteredMatches.

(** [processRequest()], from the loaded [$this->matches] and [$_GET].  An
    offset beyond the integers is a float, which [array_slice] refuses. *)
Definition processRequest (allMatches : list MatchRecord) (GET : array string)
    : result Response :=
  params <- validateAndSanitizeParams GET ;;
  filtered <- filterMatches allMatches params ;;
  let filteredMatches := usort by_date filtered in
  let page := match isset_int params "page" with
              | Some n => Z.max 1 n
              | None => 1
              end in
  let pageSize := match isset_int params "page_size" with
                  | Some n => Z.min (Z.max 1 n) MAX_PAGE_SIZE
                  | None => DEFAULT_PAGE_SIZE
                  end in
  let totalMatches := count filteredMatches in
  let offset := (page - 1) * pageSize in
  paginatedMatches <-
    (if offset <=? PHP_INT_MAX then Ok (array_slice filteredMatches offset pageSize)
     else TypeError) ;;
  let homeTeam := string_or_empty params "home_team" in
  let awayTeam := string_or_empty params "away_team" in
  let both := negb (empty homeTeam) && negb (empty awayTeam) in
  let teamAnalysis :=
    if both then
      let analysed := teamAnalysisMatches homeTeam awayTeam filteredMatches in
      Some (mkTeamAnalysis homeTeam awayTeam (count analysed)
              (calculateBothTeamsScoredPercentage analysed)
              (calculateAverageGoals analysed)
              (calculateFormIndex filteredMatches homeTeam 5)
              (calculateFormIndex filteredMatches awayTeam 5)
              (calculateHeadToHeadStats analysed))
    else None in
  let prediction :=
    if both then Some (runPrediction homeTeam awayTeam filteredMatches)
    else None in
  Ok (mkResponse totalMatches page pageSize paginatedMatches teamAnalysis
        prediction (getAvailableTeams allMatches)).

End Request.

(** ** Built-ins for the scenarios

    Calendar dates written [YYYY-MM-DD], read in UTC; every other string
    is taken as unparsable.  On these dates it is what [strtotime] and
    [new \DateTime] compute.  The numbers read from strings are the
    decimal integers without a sign: on a string of up to 18 digits, and
    on a text that begins with a letter, it is what [is_numeric] and the
    casts compute. *)

Module Iso.

Definition days_from_civil (y m d : Z) : Z :=
  let y' := if m <=? 2 then y - 1 else y in
  let era := y' / 400 in
  let yoe := y' - era * 400 in
  let mp := if m >? 2 then m - 3 else m + 9 in
  let doy := (153 * mp + 2) / 5 + d - 1 in
  let doe := yoe * 365 + yoe / 4 - yoe / 100 + doy in
  era * 146097 + doe - 719468.

Definition days_in_month (y m : Z) : Z :=
  if m =? 2 then
    if ((y mod 4 =? 0) && negb (y mod 100 =? 0)) || (y mod 400 =? 0)
    then 29 else 28
  else if (m =? 4) || (m =? 6) || (m =? 9) || (m =? 11) then 30
  else 31.

Definition parse (s : string) : option Z :=
  match s with
  | String y1 (String y2 (String y3 (String y4 (String "-"
      (String m1 (String m2 (String "-" (String d1 (String d2 EmptyString))))))))) =>
      match digits 0 (String y1 (String y2 (String y3 (String y4 EmptyString)))),
            digits 0 (String m1 (String m2 EmptyString)),
            digits 0 (String d1 (String d2 EmptyString)) with
      | Some y, Some m, Some d =>
          if (1 <=? m) && (m <=? 12) && (1 <=? d) && (d <=? days_in_month y m)
          then Some (days_from_civil y m d * 86400)
          else None
      | _, _, _ => None
      end
  | _ => None
  end.

(** The numbers of the scenarios are decimal integers without a sign:
    such a string stands for its integer.  Every other string is taken as
    not numeric and cast to 0, as a text that begins with a letter is. *)
Definition decimal (s : string) : option Z :=
  match s with
  | EmptyString => None
  | _ => digits 0 s
  end.

(** The floats of the scenarios are integers and halves, written as PHP
    writes them: an integer without a fraction, a half with [.5].  No
    other float is written in the scenarios. *)
Definition write (q : Q) : string :=
  let r := Qred q in
  if (Qden r =? 1)%positive then string_of_Z (Qnum r)
  else if (Qden r =? 2)%positive
  then (if (Qnum r <? 0)%Z then "-" else "")
       ++ string_of_Z (Z.abs (Qnum r) / 2) ++ ".5"
  else "".

#[local] Instance builtins : Builtins := {
  strtotime := parse;
  new_DateTime := parse;
  numeric := fun s => option_map inject_Z (decimal s);
  string_to_int := fun s => match decimal s with Some z => z | None => 0 end;
  string_to_float :=
    fun s => match decimal s with Some z => inject_Z z | None => 0%Q end;
  float_to_string := write
}.

End Iso.

(** ** Vocabulary of the properties *)

(** The characters that [htmlspecialchars] rewrites. *)
Definition special_char (c : ascii) : bool :=
  Ascii.eqb c "&" || Ascii.eqb c "<" || Ascii.eqb c ">"
  || Ascii.eqb c double_quote || Ascii.eqb c "'".

Fixpoint has_special (s : string) : bool :=
  match s with
  | EmptyString => false
  | String c s' => special_char c || has_special s'
  end.

(** The keys that reach the [default] branch of the sanitizer. *)
Definition generic_key (key : string) : bool :=
  negb (String.eqb key "page" || String.eqb key "page_size"
        || String.eqb key "date" || String.eqb key "both_teams_scored"
        || integer_key key || score_case key).

(** [$x + $y + $z] on the doubles of three rationals, as PHP adds them,
    left to right. *)
Definition float_sum (x y z : Q) : Q :=
  Binary64.exact
    (Binary64.add (Binary64.add (Binary64.of_Q x) (Binary64.of_Q y))
       (Binary64.of_Q z)).

(** What [predictWinner] can return. *)
Inductive predicted : Prediction -> Prop :=
| predicted_unknown : predicted unknown_prediction
| predicted_outcome (w : string) (k n : Z) :
    w = "home" \/ w = "away" \/ w = "draw" ->
    0 <= k <= n -> 0 < n ->
    predicted (mkPrediction w (round (div k n) 2)).

Section Dates.

Context `{Builtins}.

(** The date is there and parses. *)
Definition parsable (m : MatchRecord) : bool :=
  match date m with
  | Some d => match strtotime d with Some _ => true | None => false end
  | None => false
  end.

(** The date is missing or does not parse. *)
Definition undated (m : MatchRecord) : bool := negb (parsable m).

(** The date parses to a time after 1970-01-01 00:00:00. *)
Definition after_epoch (m : MatchRecord) : bool :=
  match date m with
  | Some d => match strtotime d with Some t => 0 <? t | None => false end
  | None => false
  end.

(** The date is there and does not parse: [strtotime] gives [false]. *)
Definition unparsable (m : MatchRecord) : bool :=
  match sort_date m with Some _ => false | None => true end.

(** The date parses to a time before 1970-01-01 00:00:00. *)
Definition before_epoch (m : MatchRecord) : bool :=
  match sort_date m with Some t => t <? 0 | None => false end.

(** No date that does not parse occurs beside a date before 1970.  The
    [false] of [strtotime] compares equal to the timestamp 0 and below
    every other timestamp, a negative one included; so this is when
    [by_date] orders the records as their timestamps do. *)
Definition consistent_dates (ms : list MatchRecord) : bool :=
  forallb (fun m => negb (unparsable m)) ms
  || forallb (fun m => negb (before_epoch m)) ms.

(** The timestamp a record is sorted by: 0 for a date that is missing or
    does not parse. *)
Definition timestamp (m : MatchRecord) : Z :=
  match sort_date m with
  | Some t => t
  | None => 0
  end.

End Dates.

(** What a generic key's predicate compares a text with: the record's
    field of the key's name, and for [team] either team field of a record
    that has both. *)
Definition field_matches (m : MatchRecord) (key text : string) : bool :=
  if String.eqb key "team"
  then match home_team m, away_team m with
       | Some _, Some _ =>
           field_is (home_team m) text || field_is (away_team m) text
       | _, _ => false
       end
  else if String.eqb key "home_team" then field_is (home_team m) text
  else if String.eqb key "away_team" then field_is (away_team m) text
  else if String.eqb key "score"
  then match score m with
       | Some _ => field_is (Some "Array") text
       | None => field_is (array_get (extra m) key) text
       end
  else field_is (array_get (extra m) key) text.

Section Scores.

Context `{Builtins}.

(** Both scores are there and compare greater than 0 as stored: the
    records that [calculateBothTeamsScoredPercentage] counts. *)
Definition both_positive (m : MatchRecord) : bool :=
  match score_value m "home", score_value m "away" with
  | Some home, Some away => greater_than_zero home && greater_than_zero away
  | _, _ => false
  end.

(** The two scores are integers where they are there. *)
Definition integer_scored (m : MatchRecord) : bool :=
  match score_value m "home" with Some (VInt _) | None => true | _ => false end
  && match score_value m "away" with Some (VInt _) | None => true | _ => false end.

(** The goals a record contributes to the averages: a missing score
    counts as 0. *)
Definition home_goals (m : MatchRecord) : Z :=
  match score_field m "home" with Some h => h | None => 0 end.

Definition away_goals (m : MatchRecord) : Z :=
  match score_field m "away" with Some a => a | None => 0 end.

Fixpoint total (f : MatchRecord -> Z) (ms : list MatchRecord) : Z :=
  match ms with
  | [] => 0
  | m :: ms' => f m + total f ms'
  end.

(** The goals of a sequence, signs aside. *)
Definition goal_mass (ms : list MatchRecord) : Z :=
  total (fun m => Z.abs (home_goals m) + Z.abs (away_goals m)) ms.

(** The goals add up to no more than 10^12: every sum the statistics form
    is then an integer below 2^53, which PHP adds without overflow as an
    integer and without rounding as a float, and every quotient is small
    enough for [round($x, 2)] to act on. *)
Definition sums_exact (ms : list MatchRecord) : Prop :=
  goal_mass ms <= 10 ^ 12.

(** The points of one record for a team, as [calculateFormIndex] awards
    them: 3 for a win, 1 for a draw, 0 otherwise or when a name or a score
    is missing. *)
Definition points_for (team : string) (m : MatchRecord) : Z :=
  match home_team m, away_team m, valid_score m with
  | Some home, Some _, Some (homeScore, awayScore) =>
      if strcasecmp home team =? 0 then
        if homeScore >? awayScore then 3
        else if homeScore =? awayScore then 1 else 0
      else
        if awayScore >? homeScore then 3
        else if homeScore =? awayScore then 1 else 0
  | _, _, _ => 0
  end.

End Scores.


(** The records of the scenarios. *)
Definition fixture (home away : string) (homeGoals awayGoals : Z) (day : string)
    : MatchRecord :=
  mkMatch (Some home) (Some away) (Some day)
    (Some [("home", VInt homeGoals); ("away", VInt awayGoals)]) [].

Definition first_leg : MatchRecord := fixture "A" "B" 2 1 "2024-01-01".
Definition return_leg : MatchRecord := fixture "B" "A" 0 0 "2024-02-01".
Definition third_leg : MatchRecord := fixture "A" "B" 1 1 "2024-03-01".

Definition scenario : list MatchRecord := [first_leg; return_leg; third_leg].

(** A record without a date, one from before 1970, and one without a
    score. *)
Definition no_date : MatchRecord :=
  mkMatch (Some "A") (Some "B") None
    (Some [("home", VInt 1); ("away", VInt 0)]) [].

Definition old_match : MatchRecord := fixture "A" "B" 3 2 "1960-01-01".

Definition no_score : MatchRecord :=
  mkMatch (Some "A") (Some "B") (Some "2024-04-01") None [].

(** A record whose date does not parse; one whose scores are fractions
    and one whose scores are texts; one with a team named in escaped
    form; wins of the home and of the away team. *)
Definition bad_date : MatchRecord := fixture "A" "B" 0 1 "not a date".

Definition half_goals : MatchRecord :=
  mkMatch (Some "A") (Some "B") (Some "2024-05-01")
    (Some [("home", VFloat (1 # 2)); ("away", VFloat (1 # 2))]) [].

Definition text_goals : MatchRecord :=
  mkMatch (Some "A") (Some "B") (Some "2024-05-02")
    (Some [("home", VStr "abc"); ("away", VStr "abc")]) [].

Definition escaped_rival : MatchRecord :=
  fixture "A&B" "A&amp;B" 1 0 "2024-06-01".

Definition home_win : MatchRecord := fixture "A" "B" 1 0 "2024-07-01".
Definition away_win : MatchRecord := fixture "A" "B" 0 1 "2024-08-01".

(** ** Vocabulary of the further properties *)


Definition is_string (v : pvalue) : bool :=
  match v with PStr _ => true | _ => false end.

(** The characters that open or close markup or an attribute value. *)
Definition markup_char (c : ascii) : bool :=
  Ascii.eqb c "<" || Ascii.eqb c ">" || Ascii.eqb c double_quote
  || Ascii.eqb c "'".

Fixpoint has_markup (s : string) : bool :=
  match s with
  | EmptyString => false
  | String c s' => markup_char c || has_markup s'
  end.



(** No character of the string is white space for the filters. *)
Fixpoint no_space (s : string) : bool :=
  match s with
  | EmptyString => true
  | String c s' => negb (filter_space c) && no_space s'
  end.

(** * Properties *)

(** ** Strings *)

Lemma compare_refl (s : string) : String.compare s s = Eq.
Proof.
  pose proof (String.compare_antisym s s) as E.
  destruct (String.compare s s); simpl in E; congruence.
Qed.

Lemma strcasecmp_0 (a b : string) :
  strcasecmp a b = 0 <-> strtolower a = strtolower b.
Proof.
  unfold strcasecmp. split.
  - destruct (String.compare (strtolower a) (strtolower b)) eqn:E;
      try discriminate.
    intros _. now apply String.compare_eq_iff.
  - intros E. rewrite E, compare_refl. reflexivity.
Qed.

Lemma strtolower_length (s : string) :
  String.length (strtolower s) = String.length s.
Proof. induction s; simpl; congruence. Qed.

Lemma strcasecmp_0_length (a b : string) :
  strcasecmp a b = 0 -> String.length a = String.length b.
Proof.
  intros E. apply strcasecmp_0 in E.
  rewrite <- (strtolower_length a), <- (strtolower_length b). now rewrite E.
Qed.

Lemma append_length (a b : string) :
  String.length (a ++ b) = (String.length a + String.length b)%nat.
Proof. induction a; simpl; congruence. Qed.

Lemma escape_char_length (c : ascii) :
  (1 <= String.length (escape_char c))%nat
  /\ (special_char c = true -> 4 <= String.length (escape_char c))%nat.
Proof.
  unfold escape_char, special_char.
  destruct (Ascii.eqb c "&"); [simpl; lia|].
  destruct (Ascii.eqb c double_quote); [simpl; lia|].
  destruct (Ascii.eqb c "'"); [simpl; lia|].
  destruct (Ascii.eqb c "<"); [simpl; lia|].
  destruct (Ascii.eqb c ">"); [simpl; lia|].
  simpl. split; [lia | discriminate].
Qed.

Lemma escape_length (s : string) :
  (String.length s <= String.length (escape s))%nat
  /\ (has_special s = true -> String.length s < String.length (escape s))%nat.
Proof.
  induction s as [|c s [IH1 IH2]]; simpl.
  - split; [lia | discriminate].
  - rewrite append_length. destruct (escape_char_length c) as [L1 L2].
    split; [lia|]. intros E. apply orb_true_iff in E as [E|E].
    + specialize (L2 E). lia.
    + specialize (IH2 E). lia.
Qed.

Lemma htmlspecialchars_length (s : string) :
  has_special s = true ->
  String.length (htmlspecialchars s) <> String.length s.
Proof.
  intros E. unfold htmlspecialchars.
  destruct (valid_utf8 (String.length s) s).
  - apply escape_length in E. lia.
  - destruct s; [discriminate | simpl; lia].
Qed.

Lemma escaped_never_equal (field value : string) :
  has_special value = true ->
  strcasecmp field value = 0 ->
  strcasecmp field (htmlspecialchars value) <> 0.
Proof.
  intros S E E'. apply strcasecmp_0_length in E, E'.
  apply (htmlspecialchars_length value S). congruence.
Qed.

(** ** Filtering *)

Section FilterFacts.

Context `{Builtins}.

Lemma matchesAll_strings (m : MatchRecord) (params : array string) :
  matchesAll m (strings params)
  = Ok (forallb (fun kv => matchParameterStr m (fst kv) (snd kv)) params).
Proof.
  induction params as [|[k v] params IH]; simpl; [reflexivity|].
  destruct (matchParameterStr m k v); simpl; [exact IH | reflexivity].
Qed.

Lemma array_filter_total (f : MatchRecord -> bool) (g : MatchRecord -> result bool)
    (l : list MatchRecord) :
  (forall m, g m = Ok (f m)) -> array_filter g l = Ok (filter f l).
Proof.
  intros E. induction l as [|m l IH]; simpl; [reflexivity|].
  rewrite E, IH. simpl. reflexivity.
Qed.

Lemma filterMatches_strings (ms : list MatchRecord) (params : array string) :
  filterMatches ms (strings params)
  = Ok (filter (fun m => forallb (fun kv => matchParameterStr m (fst kv) (snd kv))
                           params) ms).
Proof.
  destruct params as [|kv params].
  - simpl. f_equal. induction ms; simpl; congruence.
  - change (strings (kv :: params))
      with ((fst kv, PStr (snd kv)) :: strings params).
    unfold filterMatches. apply array_filter_total.
    intros m. apply (matchesAll_strings m (kv :: params)).
Qed.

Lemma array_set_fresh {V : Type} (a : array V) (key : string) (v : V) :
  array_get a key = None -> array_set a key v = (a ++ [(key, v)])%list.
Proof.
  induction a as [|[k w] a IH]; simpl; [reflexivity|].
  destruct (String.eqb k key); [discriminate|]. intros E. now rewrite IH.
Qed.

Lemma filter_filter {A : Type} (f g : A -> bool) (l : list A) :
  filter g (filter f l) = filter (fun x => f x && g x) l.
Proof.
  induction l as [|x l IH]; simpl; [reflexivity|].
  destruct (f x); simpl; [destruct (g x)|]; now rewrite IH.
Qed.

Lemma filter_incl {A : Type} (f : A -> bool) (l : list A) (x : A) :
  In x (filter f l) -> In x l.
Proof. intros I. apply filter_In in I. tauto. Qed.

(** C9: with no parameters [filterMatches] returns the sequence it was
    given: the same records, in the same order, and as many. *)
Theorem filterMatches_no_parameters (ms : list MatchRecord) :
  filterMatches ms [] = Ok ms.
Proof. reflexivity. Qed.

(** C8: [filterMatches] is monotonic in the mapping.  For a mapping of
    strings and a key it does not hold yet, both calls return, and the
    records kept under the extended mapping are those kept under the
    original one that also satisfy the new key's predicate, in the same
    order; so every record of the first is a record of the second. *)
Theorem filterMatches_monotonic (ms : list MatchRecord) (params : array string)
    (key value : string) :
  array_get params key = None ->
  exists kept kept' : list MatchRecord,
    filterMatches ms (strings params) = Ok kept
    /\ filterMatches ms (strings (array_set params key value)) = Ok kept'
    /\ kept' = filter (fun m => matchParameterStr m key value) kept
    /\ (forall m, In m kept' -> In m kept)
    /\ (List.length kept' <= List.length kept)%nat.
Proof.
  intros Fresh. rewrite (array_set_fresh _ _ _ Fresh).
  rewrite !filterMatches_strings. eexists. eexists.
  split; [reflexivity|]. split; [reflexivity|].
  assert (E : filter (fun m => forallb (fun kv => matchParameterStr m (fst kv) (snd kv))
                                 (params ++ [(key, value)])) ms
              = filter (fun m => matchParameterStr m key value)
                  (filter (fun m => forallb (fun kv => matchParameterStr m (fst kv) (snd kv))
                                      params) ms)).
  { rewrite filter_filter. apply filter_ext. intros m.
    rewrite forallb_app. simpl. now rewrite andb_true_r. }
  split; [exact E|]. rewrite E. split.
  - intros m. apply filter_incl.
  - apply filter_length_le.
Qed.

Lemma matchesAll_app (m : MatchRecord) (params more : array pvalue) :
  matchesAll m (params ++ more)%list
  = (ok <- matchesAll m params ;; if ok then matchesAll m more else Ok false).
Proof.
  induction params as [|[k v] params IH]; simpl.
  - reflexivity.
  - destruct (matchParameter m k v) as [[|]|]; simpl; auto.
Qed.

Lemma array_filter_incl (f : MatchRecord -> result bool)
    (l kept : list MatchRecord) :
  array_filter f l = Ok kept -> forall m, In m kept -> In m l.
Proof.
  revert kept. induction l as [|x l IH]; simpl; intros kept E m I.
  - inversion E; subst. contradiction.
  - destruct (f x) as [keep|]; [|discriminate]. simpl in E.
    destruct (array_filter f l) as [rest|]; [|discriminate]. simpl in E.
    inversion E; subst. destruct keep.
    + destruct I as [I|I]; [now left | right; now apply (IH rest)].
    + right. now apply (IH rest).
Qed.

Lemma array_filter_weaker (f g : MatchRecord -> result bool)
    (l kept' : list MatchRecord) :
  (forall m b', g m = Ok b' -> exists b, f m = Ok b /\ (b' = true -> b = true)) ->
  array_filter g l = Ok kept' ->
  exists kept, array_filter f l = Ok kept /\ forall m, In m kept' -> In m kept.
Proof.
  intros W. revert kept'. induction l as [|x l IH]; simpl; intros kept' E.
  - inversion E; subst. exists []. split; [reflexivity | auto].
  - destruct (g x) as [b'|] eqn:G; [|discriminate]. simpl in E.
    destruct (array_filter g l) as [rest'|]; [|discriminate]. simpl in E.
    inversion E; subst. destruct (W x b' G) as [b [F Imp]].
    destruct (IH rest' eq_refl) as [rest [R Sub]].
    rewrite F, R. simpl. eexists. split; [reflexivity|].
    intros m I. destruct b'.
    + rewrite (Imp eq_refl). destruct I as [I|I]; [now left | right; auto].
    + destruct b; [right|]; auto.
Qed.

(** Monotonicity on any mapping, integers and [null] included: when the
    call with the extended mapping returns, so does the call with the
    original one, and it keeps every record the extended one keeps. *)
Lemma filterMatches_monotonic_any (ms : list MatchRecord) (params : array pvalue)
    (key : string) (value : pvalue) (kept' : list MatchRecord) :
  array_get params key = None ->
  filterMatches ms (array_set params key value) = Ok kept' ->
  exists kept : list MatchRecord,
    filterMatches ms params = Ok kept /\ forall m, In m kept' -> In m kept.
Proof.
  intros Fresh. rewrite (array_set_fresh _ _ _ Fresh).
  destruct params as [|kv params].
  - simpl app. unfold filterMatches at 1. intros E. exists ms.
    split; [reflexivity|]. now apply (array_filter_incl _ _ _ E).
  - unfold filterMatches. simpl app. apply array_filter_weaker.
    intros m b' E. change (kv :: params ++ [(key, value)])%list
      with ((kv :: params) ++ [(key, value)])%list in E.
    rewrite matchesAll_app in E.
    destruct (matchesAll m (kv :: params)) as [b|]; [|discriminate].
    exists b. split; [reflexivity|]. intros T. subst b'.
    destruct b; [reflexivity|]. simpl in E. discriminate.
Qed.

End FilterFacts.

(** ** Rounding to two decimals *)

Lemma round2_unfold (x : Q) :
  (0 <= x)%Q ->
  round x 2 = (inject_Z (Qfloor (x * 100 + (1 # 2))) / 100)%Q.
Proof.
  intros Hx. unfold round. change (10 ^ Z.of_nat 2) with 100.
  change (inject_Z 100) with 100%Q.
  assert (Hs : (0 <= x * 100)%Q) by lra.
  apply Qle_bool_iff in Hs. now rewrite Hs.
Qed.

Lemma round2_error (x : Q) :
  (0 <= x)%Q ->
  (x - (1 # 200) < round x 2 /\ round x 2 <= x + (1 # 200))%Q.
Proof.
  intros Hx. rewrite (round2_unfold x Hx).
  pose proof (Qfloor_le (x * 100 + (1 # 2))) as L.
  pose proof (Qlt_floor (x * 100 + (1 # 2))) as U.
  rewrite inject_Z_plus in U. change (inject_Z 1) with 1%Q in U.
  set (n := inject_Z (Qfloor (x * 100 + (1 # 2)))) in *.
  split.
  - apply Qlt_shift_div_l; [reflexivity | lra].
  - apply Qle_shift_div_r; [reflexivity | lra].
Qed.

Lemma round2_monotone (x y : Q) :
  (0 <= x)%Q -> (x <= y)%Q -> (round x 2 <= round y 2)%Q.
Proof.
  intros Hx Hxy. rewrite (round2_unfold x Hx).
  rewrite (round2_unfold y) by lra.
  apply Qle_shift_div_r; [reflexivity|].
  assert (E : (inject_Z (Qfloor (y * 100 + (1 # 2))) / 100 * 100
               == inject_Z (Qfloor (y * 100 + (1 # 2))))%Q) by (field; discriminate).
  rewrite E. rewrite <- Zle_Qle. apply Qfloor_resp_le. lra.
Qed.

Lemma round2_unit (x : Q) :
  (0 <= x)%Q -> (x <= 1)%Q -> (0 <= round x 2 /\ round x 2 <= 1)%Q.
Proof.
  intros H0 H1. rewrite (round2_unfold x H0).
  assert (L : 0 <= Qfloor (x * 100 + (1 # 2))).
  { apply (Qfloor_resp_le 0). lra. }
  assert (U : Qfloor (x * 100 + (1 # 2)) <= 100).
  { apply (Qfloor_resp_le _ (201 # 2)). lra. }
  rewrite Zle_Qle in L, U.
  change (inject_Z 0) with 0%Q in L. change (inject_Z 100) with 100%Q in U.
  split.
  - apply Qle_shift_div_l; [reflexivity | lra].
  - apply Qle_shift_div_r; [reflexivity | lra].
Qed.

Lemma round2_grid (x : Q) :
  exists k : Z,
    round x 2 = (inject_Z k / 100)%Q
    /\ (inject_Z k - (1 # 2) <= x * 100)%Q
    /\ (x * 100 <= inject_Z k + (1 # 2))%Q.
Proof.
  unfold round. change (10 ^ Z.of_nat 2) with 100.
  change (inject_Z 100) with 100%Q.
  destruct (Qle_bool 0 (x * 100)).
  - exists (Qfloor (x * 100 + (1 # 2))). split; [reflexivity|].
    pose proof (Qfloor_le (x * 100 + (1 # 2))) as L.
    pose proof (Qlt_floor (x * 100 + (1 # 2))) as U.
    rewrite inject_Z_plus in U. change (inject_Z 1) with 1%Q in U.
    split; lra.
  - exists (Qceiling (x * 100 - (1 # 2))). split; [reflexivity|].
    pose proof (Qle_ceiling (x * 100 - (1 # 2))) as L.
    pose proof (Qceiling_lt (x * 100 - (1 # 2))) as U.
    unfold Z.sub in U. rewrite inject_Z_plus in U.
    change (inject_Z (- (1))) with (-1 # 1)%Q in U.
    split; lra.
Qed.

Lemma inject_Z_pos (n : Z) : 0 < n -> (0 < inject_Z n)%Q.
Proof. intros Hn. unfold Qlt. simpl. lia. Qed.

Lemma inject_Z_nonneg (n : Z) : 0 <= n -> (0 <= inject_Z n)%Q.
Proof. intros Hn. unfold Qle. simpl. lia. Qed.

Lemma inject_Z_le (a b : Z) : a <= b -> (inject_Z a <= inject_Z b)%Q.
Proof. intros Hab. unfold Qle. simpl. lia. Qed.

Lemma div_unit (k n : Z) :
  0 <= k <= n -> 0 < n -> (0 <= div k n /\ div k n <= 1)%Q.
Proof.
  intros [Hk Hkn] Hn. unfold div.
  assert (Qn : (0 < inject_Z n)%Q) by (now apply inject_Z_pos).
  assert (Qk : (0 <= inject_Z k)%Q) by (now apply inject_Z_nonneg).
  assert (Qkn : (inject_Z k <= inject_Z n)%Q) by (now apply inject_Z_le).
  split.
  - apply Qle_shift_div_l; [exact Qn | lra].
  - apply Qle_shift_div_r; [exact Qn | lra].
Qed.

Lemma div_antitone (k v n : Z) :
  0 <= k -> 0 < v -> v <= n -> (div k n <= div k v)%Q.
Proof.
  intros Hk Hv Hvn. unfold div.
  assert (Qv : (0 < inject_Z v)%Q) by (now apply inject_Z_pos).
  assert (Qn : (0 < inject_Z n)%Q) by (apply inject_Z_pos; lia).
  assert (Qk : (0 <= inject_Z k)%Q) by (now apply inject_Z_nonneg).
  assert (Qvn : (inject_Z v <= inject_Z n)%Q) by (now apply inject_Z_le).
  apply Qle_shift_div_r; [exact Qn|].
  assert (Q0 : (0 <= inject_Z k / inject_Z v)%Q).
  { apply Qle_shift_div_l; [exact Qv | lra]. }
  assert (E : (inject_Z k / inject_Z v * inject_Z v == inject_Z k)%Q).
  { field. intros Z0. rewrite Z0 in Qv. now apply (Qlt_irrefl 0). }
  set (q := (inject_Z k / inject_Z v)%Q) in *. nra.
Qed.

(** ** Counting scored records *)

Lemma count_nonneg {A : Type} (l : list A) : 0 <= count l.
Proof. unfold count. lia. Qed.

Lemma count_filter_le {A : Type} (f : A -> bool) (l : list A) :
  count (filter f l) <= count l.
Proof. unfold count. pose proof (filter_length_le f l). lia. Qed.

Lemma count_nil_iff {A : Type} (l : list A) : count l = 0 <-> l = [].
Proof.
  unfold count. destruct l; simpl; split; try congruence; try lia.
Qed.

Lemma count_filter_mono {A : Type} (f g : A -> bool) (l : list A) :
  (forall x, f x = true -> g x = true) ->
  count (filter f l) <= count (filter g l).
Proof.
  intros Imp. unfold count.
  induction l as [|x l IH]; simpl; [lia|].
  destruct (f x) eqn:F.
  - rewrite (Imp x F). simpl. lia.
  - destruct (g x); simpl; lia.
Qed.

Section ScoredRecords.

Context `{Builtins}.

Lemma both_scored_valid (m : MatchRecord) :
  both_scored m = true -> has_valid_score m = true.
Proof.
  unfold both_scored, has_valid_score. now destruct (valid_score m).
Qed.

Lemma both_positive_valid (m : MatchRecord) :
  both_positive m = true -> has_valid_score m = true.
Proof.
  unfold both_positive, has_valid_score, valid_score, score_field.
  destruct (score_value m "home"); [|discriminate].
  now destruct (score_value m "away").
Qed.

Lemma filter_both_scored_valid (ms : list MatchRecord) :
  filter both_scored (filter has_valid_score ms) = filter both_scored ms.
Proof.
  rewrite filter_filter. apply filter_ext. intros m.
  destruct (both_scored m) eqn:E.
  - now rewrite (both_scored_valid m E).
  - now rewrite andb_false_r.
Qed.

Lemma both_positive_fold (ms : list MatchRecord) (acc : Z) :
  fold_left (fun (count : Z) (m : MatchRecord) =>
               match score_value m "home", score_value m "away" with
               | Some home, Some away =>
                   count + (if greater_than_zero home
                               && greater_than_zero away then 1 else 0)
               | _, _ => count
               end) ms acc
  = acc + count (filter both_positive ms).
Proof.
  revert acc. induction ms as [|m ms IH]; intros acc; simpl.
  - unfold count. simpl. lia.
  - rewrite IH. unfold both_positive at 2.
    destruct (score_value m "home") as [home|];
      [destruct (score_value m "away") as [away|]|].
    + destruct (greater_than_zero home && greater_than_zero away);
        unfold count; simpl; lia.
    + lia.
    + lia.
Qed.

(** On integers the comparison before the cast and the comparison after
    it agree. *)
Lemma integer_scored_positive (m : MatchRecord) :
  integer_scored m = true -> both_positive m = both_scored m.
Proof.
  unfold integer_scored, both_positive, both_scored, valid_score, score_field.
  destruct (score_value m "home") as [[h| | | |]|],
           (score_value m "away") as [[a| | | |]|];
    simpl; try discriminate; reflexivity.
Qed.

(** C3, as the code has it: the two both-teams-scored rates differ in
    their denominator and in what they compare with 0.
    [calculateBothTeamsScoredPercentage] divides by the length of the whole
    sequence the number of records whose two scores are there and greater
    than 0 as stored; [calculateBothTeamsToScoreProb] divides by the
    number of records whose two scores are there the number of those
    whose scores, cast to integers, are greater than 0.  A record lacking
    a score counts in neither number, whatever is stored under a score
    that is there.  When every score that is there is an integer the two
    numbers counted are the same, and the first rate is then at most the
    second as soon as one record has both teams scoring; with no record
    having both scores the second is 0.0 and the first rounds zero over
    the whole length. *)
Theorem both_teams_scored_denominators (ms : list MatchRecord) :
  let positive := count (filter both_positive ms) in
  let scored := count (filter both_scored ms) in
  let valid := count (filter has_valid_score ms) in
  calculateBothTeamsScoredPercentage ms
    = (if count ms =? 0 then 0 else round (div positive (count ms) * 100) 2)%Q
  /\ calculateBothTeamsToScoreProb ms
    = (if valid =? 0 then 0 else round (div scored valid * 100) 2)%Q
  /\ (positive <= valid /\ scored <= valid /\ valid <= count ms)
  /\ ((forall m, In m ms -> integer_scored m = true) ->
      positive = scored
      /\ (existsb both_scored ms = true ->
          (calculateBothTeamsScoredPercentage ms
           <= calculateBothTeamsToScoreProb ms)%Q))
  /\ (valid = 0 ->
      calculateBothTeamsToScoreProb ms = 0%Q
      /\ calculateBothTeamsScoredPercentage ms
         = (if count ms =? 0 then 0 else round (div 0 (count ms) * 100) 2)%Q).
Proof.
  intros positive scored valid.
  assert (E1 : calculateBothTeamsScoredPercentage ms
               = (if count ms =? 0 then 0
                  else round (div positive (count ms) * 100) 2)%Q).
  { unfold calculateBothTeamsScoredPercentage.
    destruct (count ms =? 0); [reflexivity|].
    rewrite both_positive_fold. reflexivity. }
  assert (E2 : calculateBothTeamsToScoreProb ms
               = (if valid =? 0 then 0 else round (div scored valid * 100) 2)%Q).
  { unfold calculateBothTeamsToScoreProb, valid, scored.
    rewrite filter_both_scored_valid.
    destruct (filter has_valid_score ms) eqn:V; [reflexivity|].
    rewrite <- V.
    destruct (count (filter has_valid_score ms) =? 0) eqn:Z0; [|reflexivity].
    apply Z.eqb_eq, count_nil_iff in Z0. rewrite Z0 in V. discriminate. }
  assert (Pv : positive <= valid)
    by (apply count_filter_mono; exact both_positive_valid).
  assert (Sv : scored <= valid)
    by (apply count_filter_mono; exact both_scored_valid).
  assert (Vn : valid <= count ms) by apply count_filter_le.
  assert (S0 : 0 <= scored) by apply count_nonneg.
  assert (P0 : 0 <= positive) by apply count_nonneg.
  split; [exact E1|]. split; [exact E2|]. split; [tauto|]. split.
  - intros Int.
    assert (Same : positive = scored).
    { unfold positive, scored. f_equal. apply filter_ext_in.
      intros m I. apply integer_scored_positive. now apply Int. }
    split; [exact Same|].
    intros Ex. rewrite E1, E2, Same.
    assert (S1 : 0 < scored).
    { apply existsb_exists in Ex as [m [I B]].
      assert (I' : In m (filter both_scored ms)) by (apply filter_In; tauto).
      unfold scored, count. destruct (filter both_scored ms); [contradiction|].
      simpl. lia. }
    destruct (count ms =? 0) eqn:N0; [apply Z.eqb_eq in N0; lia|].
    destruct (valid =? 0) eqn:V0; [apply Z.eqb_eq in V0; lia|].
    pose proof (div_antitone scored valid (count ms) S0 ltac:(lia) Vn) as D.
    pose proof (div_unit scored (count ms) ltac:(lia) ltac:(lia)) as [D0 _].
    apply round2_monotone; lra.
  - intros V0. rewrite E1, E2, V0. simpl.
    assert (Z0 : positive = 0) by lia. rewrite Z0. split; reflexivity.
Qed.

End ScoredRecords.

(** ** Hundredths and their doubles *)

Lemma round2_hundredths (x : Q) :
  (0 <= x)%Q -> (x <= 1)%Q ->
  exists k : Z,
    round x 2 = (inject_Z k / 100)%Q /\ 0 <= k <= 100
    /\ (inject_Z k - (1 # 2) <= x * 100)%Q
    /\ (x * 100 <= inject_Z k + (1 # 2))%Q.
Proof.
  intros H0 H1. destruct (round2_grid x) as (k & E & L & U).
  exists k. split; [exact E|]. split; [|split; assumption]. split.
  - apply Z.lt_succ_r. apply Z.lt_pred_lt_succ. rewrite Zlt_Qlt.
    change (inject_Z (Z.pred 0)) with (-1)%Q. lra.
  - apply Z.lt_succ_r. rewrite Zlt_Qlt.
    change (inject_Z (Z.succ 100)) with 101%Q. lra.
Qed.

Lemma of_Q_eq (q q' : Q) :
  (q == q')%Q -> Binary64.of_Q q = Binary64.of_Q q'.
Proof.
  intros E. unfold Binary64.of_Q. now rewrite (Qred_complete q q' E).
Qed.

(** The double of a number of hundredths between 0 and 1 is within 2^-54
    of it: each of the 101 cases is computed. *)
Lemma hundredth_double (k : Z) :
  0 <= k <= 100 ->
  (Qabs (Binary64.exact (Binary64.of_Q (inject_Z k / 100)) - inject_Z k / 100)
   <= 1 # 2 ^ 54)%Q.
Proof.
  intros K.
  assert (A : forallb
                (fun n : nat =>
                   Qle_bool
                     (Qabs (Binary64.exact
                              (Binary64.of_Q (inject_Z (Z.of_nat n) / 100))
                            - inject_Z (Z.of_nat n) / 100))
                     (1 # 2 ^ 54)) (seq 0 101) = true)
    by (vm_compute; reflexivity).
  rewrite forallb_forall in A. specialize (A (Z.to_nat k)).
  rewrite Z2Nat.id in A by lia. apply Qle_bool_iff, A.
  apply in_seq. lia.
Qed.

(** The three win probabilities for a confidence of [h] hundredths,
    added as doubles in each of the three places the confidence can take:
    each of the 101 cases is computed. *)
Lemma hundredths_float_sum (h : Z) :
  0 <= h <= 100 ->
  let c := (inject_Z h / 100)%Q in
  let o := round ((1 - c) / 2) 2 in
  (Qabs (float_sum c o o - 1) <= (1 # 100) + (1 # 2 ^ 52))%Q
  /\ (Qabs (float_sum o c o - 1) <= (1 # 100) + (1 # 2 ^ 52))%Q
  /\ (Qabs (float_sum o o c - 1) <= (1 # 100) + (1 # 2 ^ 52))%Q.
Proof.
  intros K.
  assert (A : forallb
                (fun n : nat =>
                   let c := (inject_Z (Z.of_nat n) / 100)%Q in
                   let o := round ((1 - c) / 2) 2 in
                   Qle_bool (Qabs (float_sum c o o - 1))
                     ((1 # 100) + (1 # 2 ^ 52))
                   && Qle_bool (Qabs (float_sum o c o - 1))
                        ((1 # 100) + (1 # 2 ^ 52))
                   && Qle_bool (Qabs (float_sum o o c - 1))
                        ((1 # 100) + (1 # 2 ^ 52))) (seq 0 101) = true)
    by (vm_compute; reflexivity).
  rewrite forallb_forall in A. specialize (A (Z.to_nat h)).
  rewrite Z2Nat.id in A by lia.
  assert (I : In (Z.to_nat h) (seq 0 101)) by (apply in_seq; lia).
  specialize (A I). cbv zeta in A.
  apply andb_true_iff in A as [A A3]. apply andb_true_iff in A as [A1 A2].
  cbv zeta. repeat split; now apply Qle_bool_iff.
Qed.

(** ** Prediction *)

Section PredictionFacts.

Context `{Builtins}.

Lemma tally_fold (l : list MatchRecord) (acc : Tally) :
  let t := fold_left (fun (acc : Tally) (m : MatchRecord) =>
               match valid_score m with
               | Some (homeScore, awayScore) =>
                   if homeScore >? awayScore
                   then mkTally (home_wins acc + 1) (away_wins acc) (draws acc)
                   else if homeScore <? awayScore
                   then mkTally (home_wins acc) (away_wins acc + 1) (draws acc)
                   else mkTally (home_wins acc) (away_wins acc) (draws acc + 1)
               | None => acc
               end) l acc in
  home_wins acc <= home_wins t /\ away_wins acc <= away_wins t
  /\ draws acc <= draws t
  /\ home_wins t + away_wins t + draws t
     = home_wins acc + away_wins acc + draws acc
       + count (filter has_valid_score l).
Proof.
  revert acc. induction l as [|m l IH]; intros acc; simpl.
  - unfold count. simpl. lia.
  - unfold has_valid_score at 1.
    destruct (valid_score m) as [[h a]|].
    + destruct (h >? a); [|destruct (h <? a)];
        match goal with
        | |- context [fold_left _ l ?a] => specialize (IH a)
        end; simpl in IH; unfold count in *; simpl; lia.
    + specialize (IH acc). simpl in IH. lia.
Qed.

Lemma tally_total (l : list MatchRecord) :
  0 <= home_wins (tally l) /\ 0 <= away_wins (tally l) /\ 0 <= draws (tally l)
  /\ home_wins (tally l) + away_wins (tally l) + draws (tally l)
     = count (filter has_valid_score l).
Proof.
  pose proof (tally_fold l (mkTally 0 0 0)) as T. simpl in T.
  unfold tally. lia.
Qed.

Lemma predictWinner_predicted (homeTeam awayTeam : string)
    (ms : list MatchRecord) :
  predicted (predictWinner homeTeam awayTeam ms).
Proof.
  unfold predictWinner.
  destruct (empty homeTeam || empty awayTeam
            || match ms with [] => true | _ => false end);
    [constructor|].
  set (valid := filter has_valid_score (h2hMatches homeTeam awayTeam ms)).
  destruct valid as [|m valid'] eqn:V; [constructor|]. rewrite <- V.
  pose proof (tally_total valid) as (T1 & T2 & T3 & T4).
  assert (F : filter has_valid_score valid = valid).
  { unfold valid. rewrite filter_filter. apply filter_ext.
    intros x. apply andb_diag. }
  rewrite F in T4.
  assert (N : 0 < count valid) by (rewrite V; unfold count; simpl; lia).
  destruct ((home_wins (tally valid) >? away_wins (tally valid))
            && (home_wins (tally valid) >? draws (tally valid)));
    [|destruct ((away_wins (tally valid) >? home_wins (tally valid))
                && (away_wins (tally valid) >? draws (tally valid)))];
    constructor; auto; lia.
Qed.

Lemma predicted_confidence (p : Prediction) :
  predicted p -> (0 <= confidence p /\ confidence p <= 1)%Q.
Proof.
  intros [|w k n _ K N]; simpl.
  - split; discriminate.
  - destruct (div_unit k n K N). now apply round2_unit.
Qed.



(** C5, as the code has it: the three win probabilities of a prediction
    are numbers of hundredths that add up to 99, 100 or 101 hundredths.
    Under an unknown winner each outcome gets round(1/3, 2), which is
    0.33; otherwise the predicted outcome gets the confidence and each
    other outcome gets round((1 - confidence) / 2, 2).  The doubles that
    stand for these hundredths add up to 1 within 0.01 and 2^-52 more,
    added exactly or added as doubles. *)
Theorem win_probabilities_sum (homeTeam awayTeam : string)
    (ms : list MatchRecord) :
  let p := predictWinner homeTeam awayTeam ms in
  (forall outcome : string,
     calculateWinProbability p outcome
     = if String.eqb (winner p) "unknown" then round (div 1 3) 2
       else if String.eqb (winner p) outcome then confidence p
       else round ((1 - confidence p) / 2) 2)
  /\ (round (div 1 3) 2 == 33 # 100)%Q
  /\ exists home draw away : Z,
       (calculateWinProbability p "home" == inject_Z home / 100)%Q
       /\ (calculateWinProbability p "draw" == inject_Z draw / 100)%Q
       /\ (calculateWinProbability p "away" == inject_Z away / 100)%Q
       /\ 0 <= home <= 100 /\ 0 <= draw <= 100 /\ 0 <= away <= 100
       /\ 99 <= home + draw + away <= 101
       /\ (Qabs (Binary64.exact
                   (Binary64.of_Q (calculateWinProbability p "home"))
                 + Binary64.exact
                     (Binary64.of_Q (calculateWinProbability p "draw"))
                 + Binary64.exact
                     (Binary64.of_Q (calculateWinProbability p "away"))
                 - 1)
           <= (1 # 100) + (1 # 2 ^ 52))%Q
       /\ (Qabs (float_sum (calculateWinProbability p "home")
                   (calculateWinProbability p "draw")
                   (calculateWinProbability p "away") - 1)
           <= (1 # 100) + (1 # 2 ^ 52))%Q.
Proof.
  intros p. split; [reflexivity|]. split; [reflexivity|].
  assert (Sum : forall (x y z : Q) (a b c : Z),
            (x == inject_Z a / 100)%Q -> (y == inject_Z b / 100)%Q ->
            (z == inject_Z c / 100)%Q ->
            0 <= a <= 100 -> 0 <= b <= 100 -> 0 <= c <= 100 ->
            99 <= a + b + c <= 101 ->
            (Qabs (Binary64.exact (Binary64.of_Q x)
                   + Binary64.exact (Binary64.of_Q y)
                   + Binary64.exact (Binary64.of_Q z) - 1)
             <= (1 # 100) + (1 # 2 ^ 52))%Q).
  { intros x y z a b c Ex Ey Ez Ha Hb Hc [S1 S2].
    rewrite (of_Q_eq x _ Ex), (of_Q_eq y _ Ey), (of_Q_eq z _ Ez).
    pose proof (hundredth_double a Ha) as Da.
    pose proof (hundredth_double b Hb) as Db.
    pose proof (hundredth_double c Hc) as Dc.
    apply Qabs_Qle_condition in Da, Db, Dc.
    apply Qabs_Qle_condition.
    change (2 ^ 54)%positive with 18014398509481984%positive in *.
    change (2 ^ 52)%positive with 4503599627370496%positive.
    rewrite Zle_Qle in S1, S2. rewrite !inject_Z_plus in S1, S2.
    change (inject_Z 99) with 99%Q in S1.
    change (inject_Z 101) with 101%Q in S2.
    assert (Qa : (inject_Z a / 100 * 100 == inject_Z a)%Q)
      by (field; discriminate).
    assert (Qb : (inject_Z b / 100 * 100 == inject_Z b)%Q)
      by (field; discriminate).
    assert (Qc : (inject_Z c / 100 * 100 == inject_Z c)%Q)
      by (field; discriminate).
    set (qa := (inject_Z a / 100)%Q) in *.
    set (qb := (inject_Z b / 100)%Q) in *.
    set (qc := (inject_Z c / 100)%Q) in *.
    set (ea := Binary64.exact (Binary64.of_Q qa)) in *.
    set (eb := Binary64.exact (Binary64.of_Q qb)) in *.
    set (ec := Binary64.exact (Binary64.of_Q qc)) in *.
    destruct Da, Db, Dc. split; lra. }
  pose proof (predictWinner_predicted homeTeam awayTeam ms) as P.
  fold p in P. destruct P as [|w k n W K N].
  - exists 33, 33, 33.
    split; [reflexivity|]. split; [reflexivity|]. split; [reflexivity|].
    split; [lia|]. split; [lia|]. split; [lia|]. split; [lia|].
    split; [apply (Sum _ _ _ 33 33 33); try reflexivity; lia|].
    apply Qle_bool_iff. vm_compute. reflexivity.
  - destruct (div_unit k n K N) as [D0 D1].
    destruct (round2_hundredths (div k n) D0 D1) as (h & Eh & Hh & _).
    unfold calculateWinProbability. cbn [winner confidence]. rewrite Eh.
    assert (Qh : (inject_Z h / 100 * 100 == inject_Z h)%Q)
      by (field; discriminate).
    assert (Bh : (0 <= inject_Z h / 100 /\ inject_Z h / 100 <= 1)%Q).
    { destruct Hh as [H0 H1]. rewrite Zle_Qle in H0, H1.
      change (inject_Z 0) with 0%Q in H0.
      change (inject_Z 100) with 100%Q in H1.
      set (q := (inject_Z h / 100)%Q) in *. split; lra. }
    destruct Bh as [B0 B1].
    assert (Y0 : (0 <= (1 - inject_Z h / 100) / 2)%Q).
    { apply Qle_shift_div_l; [reflexivity | lra]. }
    assert (Y1 : ((1 - inject_Z h / 100) / 2 <= 1)%Q).
    { apply Qle_shift_div_r; [reflexivity | lra]. }
    destruct (round2_hundredths _ Y0 Y1) as (j & Ej & Hj & Lj & Uj).
    pose proof (hundredths_float_sum h Hh) as (F1 & F2 & F3).
    rewrite Ej in F1, F2, F3. rewrite Ej.
    assert (Half : ((1 - inject_Z h / 100) / 2 * 100
                    == 50 - inject_Z h / 2)%Q) by (field; discriminate).
    rewrite Half in Lj, Uj.
    assert (Tw : (inject_Z h / 2 * 2 == inject_Z h)%Q) by (field; discriminate).
    assert (Total : 99 <= h + j + j <= 101).
    { split.
      - rewrite Zle_Qle, !inject_Z_plus. change (inject_Z 99) with 99%Q.
        set (q := (inject_Z h / 2)%Q) in *. lra.
      - rewrite Zle_Qle, !inject_Z_plus. change (inject_Z 101) with 101%Q.
        set (q := (inject_Z h / 2)%Q) in *. lra. }
    destruct W as [W|[W|W]]; subst w;
      repeat match goal with
             | |- context [String.eqb ?a ?b] =>
                 let v := eval vm_compute in (String.eqb a b) in
                 change (String.eqb a b) with v
             end;
      cbv iota.
    + exists h, j, j.
      split; [reflexivity|]. split; [reflexivity|]. split; [reflexivity|].
      split; [lia|]. split; [lia|]. split; [lia|]. split; [lia|].
      split; [apply (Sum _ _ _ h j j); try reflexivity; lia | exact F1].
    + exists j, j, h.
      split; [reflexivity|]. split; [reflexivity|]. split; [reflexivity|].
      split; [lia|]. split; [lia|]. split; [lia|]. split; [lia|].
      split; [apply (Sum _ _ _ j j h); try reflexivity; lia | exact F3].
    + exists j, h, j.
      split; [reflexivity|]. split; [reflexivity|]. split; [reflexivity|].
      split; [lia|]. split; [lia|]. split; [lia|]. split; [lia|].
      split; [apply (Sum _ _ _ j h j); try reflexivity; lia | exact F2].
Qed.

End PredictionFacts.

(** ** Sanitizing *)

Lemma array_get_set {V : Type} (a : array V) (key key' : string) (v : V) :
  array_get (array_set a key v) key'
  = if String.eqb key key' then Some v else array_get a key'.
Proof.
  induction a as [|[k w] a IH]; simpl.
  - reflexivity.
  - destruct (String.eqb k key) eqn:E; simpl.
    + apply String.eqb_eq in E. subst k. now destruct (String.eqb key key').
    + rewrite IH. destruct (String.eqb key key') eqn:E'; [|reflexivity].
      apply String.eqb_eq in E'. subst key'. now rewrite E.
Qed.

Section SanitizerFacts.

Context `{Builtins}.

Lemma sanitize_fold_error (params : array string) :
  fold_left (fun acc kv =>
               sanitizedParams <- acc ;;
               sanitize_entry sanitizedParams (fst kv) (snd kv))
    params TypeError = TypeError.
Proof. induction params as [|kv params IH]; simpl; auto. Qed.

Lemma sanitize_fold_cons (params : array string) (acc out : array pvalue)
    (k v : string) :
  fold_left (fun acc kv =>
               sanitizedParams <- acc ;;
               sanitize_entry sanitizedParams (fst kv) (snd kv))
    ((k, v) :: params) (Ok acc) = Ok out ->
  exists mid : array pvalue,
    sanitize_entry acc k v = Ok mid
    /\ fold_left (fun acc kv =>
                    sanitizedParams <- acc ;;
                    sanitize_entry sanitizedParams (fst kv) (snd kv))
         params (Ok mid) = Ok out.
Proof.
  simpl. destruct (sanitize_entry acc k v) as [mid|].
  - intros E. now exists mid.
  - rewrite sanitize_fold_error. discriminate.
Qed.

Lemma sanitize_entry_other (acc acc' : array pvalue) (k v key : string) :
  k <> key -> sanitize_entry acc k v = Ok acc' ->
  array_get acc' key = array_get acc key.
Proof.
  intros D. apply String.eqb_neq in D. unfold sanitize_entry.
  repeat match goal with
         | |- context [if ?b then _ else _] => destruct b
         | |- context [match ?o with Some _ => _ | None => _ end] => destruct o
         end;
    intros E; try discriminate E; injection E as <-;
    try reflexivity; rewrite array_get_set, D; reflexivity.
Qed.

Lemma sanitize_entry_page (acc : array pvalue) (key value : string) :
  key = "page" \/ key = "page_size" -> value <> "" ->
  exists acc' : array pvalue,
    sanitize_entry acc key value = Ok acc'
    /\ array_get acc' key
       = Some match filter_validate_int value with
              | Some n => PInt n
              | None => PNull
              end.
Proof.
  intros K V. apply String.eqb_neq in V. unfold sanitize_entry. rewrite V.
  destruct K as [K|K]; subst key; simpl; eexists;
    (split; [reflexivity|]); rewrite array_get_set; reflexivity.
Qed.

Lemma sanitize_fold_other (params : array string) (acc out : array pvalue)
    (key : string) :
  ~ In key (map fst params) ->
  fold_left (fun acc kv =>
               sanitizedParams <- acc ;;
               sanitize_entry sanitizedParams (fst kv) (snd kv))
    params (Ok acc) = Ok out ->
  array_get out key = array_get acc key.
Proof.
  revert acc. induction params as [|[k v] params IH]; intros acc N E.
  - simpl in E. now injection E as <-.
  - apply sanitize_fold_cons in E as (mid & E1 & E2). simpl in N.
    rewrite (IH mid) by tauto. apply (sanitize_entry_other _ _ k v); tauto.
Qed.

Lemma sanitize_fold_page (params : array string) (acc out : array pvalue)
    (key value : string) :
  key = "page" \/ key = "page_size" ->
  NoDup (map fst params) -> In (key, value) params -> value <> "" ->
  fold_left (fun acc kv =>
               sanitizedParams <- acc ;;
               sanitize_entry sanitizedParams (fst kv) (snd kv))
    params (Ok acc) = Ok out ->
  array_get out key
  = Some match filter_validate_int value with
         | Some n => PInt n
         | None => PNull
         end.
Proof.
  intros K. revert acc.
  induction params as [|[k v] params IH]; intros acc U I V E.
  - contradiction.
  - apply sanitize_fold_cons in E as (mid & E1 & E2).
    simpl in U. inversion U as [|? ? Fresh U']; subst.
    destruct I as [I|I].
    + inversion I; subst.
      rewrite (sanitize_fold_other _ _ _ _ Fresh E2).
      destruct (sanitize_entry_page acc key value K V) as (acc' & S & G).
      congruence.
    + now apply (IH mid).
Qed.

(** A non-empty [page] or [page_size] always stays in the sanitized
    mapping, with its integer when the raw value is one and with [null]
    when it is not; [isset] fails on the [null]. *)
Lemma page_keys_kept (GET : array string) (params : array pvalue)
    (key value : string) :
  key = "page" \/ key = "page_size" ->
  NoDup (map fst GET) -> In (key, value) GET -> value <> "" ->
  validateAndSanitizeParams GET = Ok params ->
  array_get params key
  = Some match filter_validate_int value with
         | Some n => PInt n
         | None => PNull
         end
  /\ isset_int params key = filter_validate_int value.
Proof.
  intros K U I V S.
  pose proof (sanitize_fold_page GET [] params key value K U I V S) as E.
  split; [exact E|]. unfold isset_int. rewrite E.
  now destruct (filter_validate_int value).
Qed.

(** What the sanitizer does with one parameter of a generic key. *)
Lemma sanitize_generic (key value : string) :
  generic_key key = true -> value <> "" ->
  validateAndSanitizeParams [(key, value)]
  = Ok [(key, PStr (htmlspecialchars value))].
Proof.
  intros G V. unfold generic_key in G. apply negb_true_iff in G.
  apply orb_false_iff in G as [G Gscore]. apply orb_false_iff in G as [G Gint].
  apply orb_false_iff in G as [G Gboth].
  apply orb_false_iff in G as [G Gdate]. apply orb_false_iff in G as [Gpage Gsize].
  unfold validateAndSanitizeParams. simpl. unfold sanitize_entry.
  apply String.eqb_neq in V.
  now rewrite V, Gpage, Gsize, Gdate, Gboth, Gint, Gscore.
Qed.

(** What the filter does with the stored text of a generic key. *)
Lemma generic_predicate (m : MatchRecord) (key text : string) :
  generic_key key = true ->
  matchParameterStr m key text = field_matches m key text.
Proof.
  intros G. unfold generic_key in G. apply negb_true_iff in G.
  apply orb_false_iff in G as [G Gscore]. apply orb_false_iff in G as [G _].
  apply orb_false_iff in G as [G Gboth].
  apply orb_false_iff in G as [_ Gdate].
  unfold matchParameterStr, field_matches.
  destruct (String.eqb key "team").
  { unfold matchesTeam. now destruct (home_team m), (away_team m). }
  destruct (String.eqb key "home_team") eqn:Eh; [reflexivity|].
  destruct (String.eqb key "away_team") eqn:Ea; [reflexivity|].
  rewrite Gdate, Gscore, Gboth. unfold matchesDefault, top_level.
  rewrite Eh, Ea, Gdate.
  destruct (String.eqb key "score"); [|reflexivity].
  now destruct (score m).
Qed.

(** C10, as the code has it: the values of the keys that the sanitizer
    treats in its default branch, [team], [home_team] and [away_team]
    among them, are stored escaped ([&amp;], [&lt;], [&gt;], [&quot;] and
    [&#039;] for the five characters), and the filter keeps the records
    whose field of that name equals the escaped text, case aside.  When
    the raw value holds one of [&], [<], [>], the double or the single
    quote, a field equal to the raw value differs from the escaped text;
    so a record that the raw value would select is left out, except under
    [team], which reads both team fields: there the record is kept exactly
    when its other team field is the escaped text. *)
Theorem escaped_before_filtering (key value : string) (ms : list MatchRecord)
    (m : MatchRecord) :
  generic_key key = true -> has_special value = true ->
  let escaped := htmlspecialchars value in
  validateAndSanitizeParams [(key, value)] = Ok [(key, PStr escaped)]
  /\ (generic_key "team" && generic_key "home_team" && generic_key "away_team"
      = true)
  /\ (htmlspecialchars "&" = "&amp;" /\ htmlspecialchars "<" = "&lt;"
      /\ htmlspecialchars ">" = "&gt;"
      /\ htmlspecialchars (String double_quote "") = "&quot;"
      /\ htmlspecialchars "'" = "&#039;")
  /\ filterMatches ms [(key, PStr escaped)]
     = Ok (filter (fun r => field_matches r key escaped) ms)
  /\ (forall field : option string,
        field_is field value = true -> field_is field escaped = false)
  /\ (key <> "team" -> field_matches m key value = true ->
      field_matches m key escaped = false)
  /\ (key = "team" ->
      (field_is (home_team m) value = true ->
       field_matches m key escaped = field_is (away_team m) escaped)
      /\ (field_is (away_team m) value = true ->
          field_matches m key escaped = field_is (home_team m) escaped)).
Proof.
  intros G S escaped.
  assert (F : forall field : option string,
             field_is field value = true -> field_is field escaped = false).
  { intros [f|]; simpl; [|discriminate]. intros E. apply Z.eqb_eq in E.
    apply Z.eqb_neq. now apply escaped_never_equal. }
  split; [|split; [reflexivity|split;
    [repeat split|split; [|split; [exact F|split]]]]].
  - apply sanitize_generic; [exact G|].
    intros ->. discriminate S.
  - change [(key, PStr escaped)] with (strings [(key, escaped)]).
    rewrite filterMatches_strings. f_equal. apply filter_ext. intros r.
    simpl. rewrite andb_true_r. now apply generic_predicate.
  - intros T. apply String.eqb_neq in T. unfold field_matches. rewrite T.
    destruct (String.eqb key "home_team"); [apply F|].
    destruct (String.eqb key "away_team"); [apply F|].
    destruct (String.eqb key "score").
    + destruct (score m); apply F.
    + apply F.
  - intros ->. unfold field_matches. simpl. split.
    + intros R. rewrite (F _ R).
      destruct (home_team m); [|discriminate R]. now destruct (away_team m).
    + intros R. rewrite (F _ R), orb_false_r.
      destruct (away_team m); [|discriminate R]. now destruct (home_team m).
Qed.

End SanitizerFacts.

(** ** Sorting *)

Lemma insert_perm {A : Type} (cmp : A -> A -> comparison) (x : A) (l : list A) :
  Permutation (insert cmp x l) (x :: l).
Proof.
  induction l as [|y l IH]; simpl; [reflexivity|].
  destruct (cmp x y); try reflexivity.
  rewrite IH. apply perm_swap.
Qed.

Lemma usort_perm {A : Type} (cmp : A -> A -> comparison) (l : list A) :
  Permutation (usort cmp l) l.
Proof.
  induction l as [|x l IH]; simpl; [reflexivity|].
  rewrite insert_perm. now apply perm_skip.
Qed.

Lemma insert_in {A : Type} (cmp : A -> A -> comparison) (x y : A) (l : list A) :
  In y (insert cmp x l) -> y = x \/ In y l.
Proof.
  intros I. apply (Permutation_in _ (insert_perm cmp x l)) in I.
  destruct I; auto.
Qed.

(** Insertion sorts by a key, largest first, when the comparison is that
    of the keys on the elements it meets. *)
Lemma insert_sorted_by {A : Type} (key : A -> Z) (cmp : A -> A -> comparison)
    (x : A) (l : list A) :
  (forall y, In y l -> cmp x y = Z.compare (key y) (key x)) ->
  StronglySorted (fun a b => key b <= key a) l ->
  StronglySorted (fun a b => key b <= key a) (insert cmp x l).
Proof.
  induction l as [|y l IH]; simpl; intros C S.
  - constructor; constructor.
  - inversion S as [|? ? S' F]; subst.
    rewrite (C y) by now left.
    rewrite Forall_forall in F.
    destruct (Z.compare_spec (key y) (key x)) as [E|E|E].
    + constructor; [exact S|].
      constructor; [lia|]. apply Forall_forall. intros z I.
      specialize (F z I). lia.
    + constructor; [exact S|].
      constructor; [lia|]. apply Forall_forall. intros z I.
      specialize (F z I). lia.
    + constructor.
      * apply IH; [|exact S']. intros z I. apply C. now right.
      * apply Forall_forall. intros z I.
        apply insert_in in I as [->|I]; [lia | now apply F].
Qed.

Lemma usort_sorted_by {A : Type} (key : A -> Z) (cmp : A -> A -> comparison)
    (l : list A) :
  (forall x y, In x l -> In y l -> cmp x y = Z.compare (key y) (key x)) ->
  StronglySorted (fun a b => key b <= key a) (usort cmp l).
Proof.
  induction l as [|x l IH]; intros C; simpl; [constructor|].
  apply insert_sorted_by.
  - intros y I. apply C; [now left | right].
    now apply (Permutation_in _ (usort_perm cmp l)).
  - apply IH. intros a b Ia Ib. apply C; now right.
Qed.

Lemma sorted_suffix {A : Type} (R : A -> A -> Prop) (l1 l2 : list A) :
  StronglySorted R (l1 ++ l2)%list -> StronglySorted R l2.
Proof.
  induction l1 as [|x l1 IH]; simpl; [auto|].
  intros S. inversion S; auto.
Qed.

Section RequestFacts.

Context `{Builtins}.

(** Without a date that does not parse, or without a date before 1970,
    [by_date] compares the timestamps, the later one first. *)
Lemma by_date_consistent (x y : MatchRecord) :
  (unparsable x = false /\ unparsable y = false)
  \/ (before_epoch x = false /\ before_epoch y = false) ->
  by_date x y = Z.compare (timestamp y) (timestamp x).
Proof.
  unfold unparsable, before_epoch, by_date, timestamp.
  destruct (sort_date x) as [tx|], (sort_date y) as [ty|]; simpl;
    intros [[Cx Cy]|[Cx Cy]]; try discriminate; try reflexivity.
  - apply Z.ltb_ge in Cx. destruct tx; try reflexivity; lia.
  - apply Z.ltb_ge in Cy. destruct ty; try reflexivity; lia.
Qed.

Lemma consistent_dates_by_date (ms : list MatchRecord) :
  consistent_dates ms = true ->
  forall x y, In x ms -> In y ms ->
    by_date x y = Z.compare (timestamp y) (timestamp x).
Proof.
  unfold consistent_dates. intros C x y Ix Iy. apply by_date_consistent.
  apply orb_true_iff in C as [C|C]; rewrite forallb_forall in C;
    [left | right]; split; apply negb_true_iff, C; assumption.
Qed.

Lemma undated_timestamp (m : MatchRecord) :
  undated m = true -> timestamp m = 0.
Proof.
  unfold undated, parsable, timestamp, sort_date.
  destruct (date m) as [d|]; [|reflexivity].
  now destruct (strtotime d).
Qed.

Lemma after_epoch_timestamp (m : MatchRecord) :
  after_epoch m = (0 <? timestamp m).
Proof.
  unfold after_epoch, timestamp, sort_date.
  destruct (date m) as [d|]; [|reflexivity].
  now destruct (strtotime d).
Qed.

Lemma before_epoch_timestamp (m : MatchRecord) :
  before_epoch m = (timestamp m <? 0).
Proof.
  unfold before_epoch, timestamp. now destruct (sort_date m).
Qed.

(** C4, as the code has it: a missing date counts as the timestamp 0,
    which is 1970-01-01, and so does a date that does not parse as long
    as no date before 1970 is around.  On such records, and on records
    all of whose dates parse, the sort keeps the records and puts them in
    descending order of their timestamps: every record comes before all
    records of a smaller timestamp.  So a record dated after the epoch
    comes before every record whose date is missing or does not parse,
    and a record dated before the epoch comes after them. *)
Theorem sorted_by_date_descending (ms : list MatchRecord) :
  consistent_dates ms = true ->
  Permutation (usort by_date ms) ms
  /\ StronglySorted (fun a b => timestamp b <= timestamp a) (usort by_date ms)
  /\ (forall m, undated m = true -> timestamp m = 0)
  /\ forall (l1 l2 : list MatchRecord) (x y : MatchRecord),
       usort by_date ms = (l1 ++ x :: l2)%list -> In y l2 ->
       (undated x = true -> after_epoch y = false)
       /\ (before_epoch x = true -> before_epoch y = true).
Proof.
  intros C.
  assert (S : StronglySorted (fun a b => timestamp b <= timestamp a)
                (usort by_date ms)).
  { apply usort_sorted_by. now apply consistent_dates_by_date. }
  split; [apply usort_perm|]. split; [exact S|].
  split; [exact undated_timestamp|].
  intros l1 l2 x y E I. rewrite E in S. apply sorted_suffix in S.
  inversion S as [|? ? _ F]; subst. rewrite Forall_forall in F.
  specialize (F y I). split.
  - intros U. apply undated_timestamp in U.
    rewrite after_epoch_timestamp. apply Z.ltb_ge. lia.
  - rewrite !before_epoch_timestamp. intros B. apply Z.ltb_lt in B.
    apply Z.ltb_lt. lia.
Qed.

(** ** The request *)

(** C1: with [page_size=1000] and [page=0] the sanitizer stores the
    integers 1000 and 0 under the two keys, and the filter then hands the
    first of them to [matchParameter], which takes strings: on every
    dataset with a record the request raises a [TypeError] and gives no
    response.  Only on the empty dataset does the response carry page 1
    and page size 500. *)
Theorem paginated_request_raises (m : MatchRecord) (rest : list MatchRecord) :
  let GET := [("page_size", "1000"); ("page", "0")] in
  validateAndSanitizeParams GET
  = Ok [("page_size", PInt 1000); ("page", PInt 0)]
  /\ processRequest (m :: rest) GET = TypeError
  /\ processRequest [] GET = Ok (mkResponse 0 1 500 [] None None []).
Proof. repeat split. Qed.

(** C7: the sanitizer does not drop a [page] that is not an integer.
    For [page=abc] the sanitized mapping holds the key, bound to [null].
    [isset] fails on it, which is what the pagination expressions test;
    but the filter walks the whole mapping and hands the [null] to
    [matchParameter], so on every dataset with a record the request raises
    a [TypeError] instead of falling back to the default page. *)
Theorem unparsed_page_kept_as_null (m : MatchRecord) (rest : list MatchRecord) :
  let GET := [("page", "abc")] in
  filter_validate_int "abc" = None
  /\ (exists params : array pvalue,
        validateAndSanitizeParams GET = Ok params
        /\ params = [("page", PNull)]
        /\ array_get params "page" <> None
        /\ isset_int params "page" = None)
  /\ processRequest (m :: rest) GET = TypeError
  /\ processRequest [] GET = Ok (mkResponse 0 1 100 [] None None []).
Proof.
  intros GET. split; [reflexivity|]. split; [|split; reflexivity].
  exists [("page", PNull)]. repeat split. discriminate.
Qed.

(** C2: on the three-record dataset, [home_team=A] and [away_team=B] give
    a response whose [team_analysis.matches_count] is 2, the orientation-free
    selection running over the filtered records; and the head-to-head
    records that [predictWinner] selects from the same records, home A and
    away B only, are 2 as well, the B-against-A record not among them. *)
Theorem scenario_counts :
  let GET := [("home_team", "A"); ("away_team", "B")] in
  exists (r : Response) (analysis : TeamAnalysis)
         (filteredMatches : list MatchRecord),
    processRequest scenario GET = Ok r
    /\ Permutation filteredMatches [first_leg; third_leg]
    /\ total_matches r = 2
    /\ matches r = filteredMatches
    /\ team_analysis r = Some analysis
    /\ matches_count analysis
       = count (teamAnalysisMatches "A" "B" filteredMatches)
    /\ matches_count analysis = 2
    /\ prediction r = Some (runPrediction "A" "B" filteredMatches)
    /\ count (h2hMatches "A" "B" filteredMatches) = 2
    /\ ~ In return_leg (h2hMatches "A" "B" filteredMatches).
Proof.
  intros GET.
  assert (S : usort by_date [first_leg; third_leg] = [first_leg; third_leg]
              \/ usort by_date [first_leg; third_leg] = [third_leg; first_leg]).
  { simpl. destruct (by_date first_leg third_leg); auto. }
  unfold processRequest.
  change (validateAndSanitizeParams GET)
    with (Ok [("home_team", PStr "A"); ("away_team", PStr "B")]).
  unfold bind at 1.
  change (filterMatches scenario
            [("home_team", PStr "A"); ("away_team", PStr "B")])
    with (Ok [first_leg; third_leg]).
  unfold bind at 1.
  destruct S as [S|S]; rewrite S.
  - eexists. eexists. exists [first_leg; third_leg].
    split; [vm_compute; reflexivity|]. split; [reflexivity|].
    split; [reflexivity|]. repeat (split; [reflexivity|]).
    vm_compute. intros [E|[E|[]]]; discriminate.
  - eexists. eexists. exists [third_leg; first_leg].
    split; [vm_compute; reflexivity|]. split; [apply perm_swap|].
    split; [reflexivity|]. repeat (split; [reflexivity|]).
    vm_compute. intros [E|[E|[]]]; discriminate.
Qed.

End RequestFacts.

(** ** The properties on concrete requests

    The date parser is [Iso.builtins] from here on. *)

Section Scenarios.

#[local] Existing Instance Iso.builtins.

(** C4, as stated, fails: a record without a date sorts before a record
    dated 1960-01-01, whose timestamp is negative. *)
Lemma parsable_after_undated :
  usort by_date [no_date; old_match] = [no_date; old_match]
  /\ undated no_date = true
  /\ parsable old_match = true
  /\ ~ (forall (l1 l2 : list MatchRecord) (x y : MatchRecord),
          usort by_date [no_date; old_match] = (l1 ++ x :: l2)%list ->
          undated x = true -> In y l2 -> parsable y = false).
Proof.
  split; [reflexivity|]. split; [reflexivity|]. split; [reflexivity|].
  intros C.
  specialize (C [] [old_match] no_date old_match eq_refl eq_refl
                (or_introl eq_refl)).
  discriminate C.
Qed.

(** With a date that does not parse beside a date before 1970 the
    comparison goes in a circle: the record without a date comes before
    the record of 1960, that one before the record whose date does not
    parse, and this one ties with the record without a date. *)
Lemma by_date_circle :
  consistent_dates [old_match; bad_date; no_date] = false
  /\ by_date no_date old_match = Lt
  /\ by_date old_match bad_date = Lt
  /\ by_date bad_date no_date = Eq.
Proof. repeat split. Qed.

Lemma sorted_by_date_descending_witness :
  consistent_dates [no_date; third_leg; old_match; first_leg] = true
  /\ consistent_dates [bad_date; third_leg; no_date] = true
  /\ usort by_date [no_date; third_leg; old_match; first_leg]
     = ([third_leg; first_leg] ++ no_date :: [old_match])%list
  /\ usort by_date [bad_date; third_leg; no_date]
     = [third_leg; bad_date; no_date]
  /\ StronglySorted (fun a b => timestamp b <= timestamp a)
       (usort by_date [bad_date; third_leg; no_date])
  /\ after_epoch old_match = false.
Proof.
  split; [reflexivity|]. split; [reflexivity|].
  split; [reflexivity|]. split; [reflexivity|]. split.
  - apply (@sorted_by_date_descending Iso.builtins
             [bad_date; third_leg; no_date] eq_refl).
  - apply (proj2 (proj2 (proj2
             (@sorted_by_date_descending Iso.builtins
                [no_date; third_leg; old_match; first_leg] eq_refl)))
             [third_leg; first_leg] [old_match] no_date old_match).
    + reflexivity.
    + left. reflexivity.
    + reflexivity.
Defined.

Lemma filterMatches_monotonic_witness :
  array_get [("team", "A")] "away_team" = None
  /\ exists kept kept' : list MatchRecord,
       filterMatches scenario (strings [("team", "A")]) = Ok kept
       /\ filterMatches scenario
            (strings (array_set [("team", "A")] "away_team" "B")) = Ok kept'
       /\ kept' = filter (fun m => matchParameterStr m "away_team" "B") kept
       /\ (forall m, In m kept' -> In m kept)
       /\ (List.length kept' <= List.length kept)%nat.
Proof.
  split; [reflexivity|].
  apply (filterMatches_monotonic scenario [("team", "A")] "away_team" "B").
  reflexivity.
Defined.

Lemma both_teams_scored_denominators_witness :
  ((forall m, In m [first_leg; no_score] -> integer_scored m = true)
   /\ existsb both_scored [first_leg; no_score] = true
   /\ (calculateBothTeamsScoredPercentage [first_leg; no_score]
       <= calculateBothTeamsToScoreProb [first_leg; no_score])%Q)
  /\ (count (filter has_valid_score [no_score]) = 0
      /\ calculateBothTeamsToScoreProb [no_score] = 0%Q).
Proof.
  assert (I : forall m, In m [first_leg; no_score] -> integer_scored m = true)
    by (intros m [<-|[<-|[]]]; reflexivity).
  split; [split; [exact I | split; [reflexivity|]]|split; [reflexivity|]].
  - apply (proj2 (proj1 (proj2 (proj2 (proj2
             (both_teams_scored_denominators [first_leg; no_score])))) I)).
    reflexivity.
  - apply (proj2 (proj2 (proj2 (proj2
             (both_teams_scored_denominators [no_score]))))).
    reflexivity.
Defined.

(** C3, as stated, fails: a score that is there but is not an integer is
    compared with 0 as it is by the one function and after the cast by the
    other.  With the scores 0.5 to 0.5, or ["abc"] to ["abc"], beside a 1-1
    record, every record has both scores, yet the percentage over the
    whole sequence is 100 and the probability over the scored records is
    50. *)
Lemma unequal_numerators :
  let fractions := [half_goals; third_leg] in
  let texts := [text_goals; third_leg] in
  forallb has_valid_score fractions = true
  /\ existsb both_scored fractions = true
  /\ (calculateBothTeamsScoredPercentage fractions == 100)%Q
  /\ (calculateBothTeamsToScoreProb fractions == 50)%Q
  /\ ~ (calculateBothTeamsScoredPercentage fractions
        <= calculateBothTeamsToScoreProb fractions)%Q
  /\ forallb has_valid_score texts = true
  /\ (calculateBothTeamsScoredPercentage texts == 100)%Q
  /\ (calculateBothTeamsToScoreProb texts == 50)%Q.
Proof.
  intros fractions texts.
  split; [reflexivity|]. split; [reflexivity|]. split; [reflexivity|].
  split; [reflexivity|]. split; [|repeat split].
  vm_compute. intros C. now apply C.
Qed.


(** C5, as stated, fails on the doubles: five home wins in eight records
    give the confidence 0.63 and 0.19 for each other outcome, and the
    three doubles add up to more than 1.01, in exact arithmetic and as a
    sum of doubles alike. *)
Lemma doubles_miss_the_bound :
  let ms := (repeat home_win 5 ++ repeat away_win 3)%list in
  let p := predictWinner "A" "B" ms in
  let home := Binary64.of_Q (calculateWinProbability p "home") in
  let draw := Binary64.of_Q (calculateWinProbability p "draw") in
  let away := Binary64.of_Q (calculateWinProbability p "away") in
  winner p = "home"
  /\ (calculateWinProbability p "home" == 63 # 100)%Q
  /\ (calculateWinProbability p "draw" == 19 # 100)%Q
  /\ (calculateWinProbability p "away" == 19 # 100)%Q
  /\ ~ (Qabs (Binary64.exact home + Binary64.exact draw + Binary64.exact away
              - 1) <= 1 # 100)%Q
  /\ Binary64.leb
       (Binary64.abs
          (Binary64.sub (Binary64.add (Binary64.add home draw) away)
             (Binary64.of_Z 1)))
       (Binary64.of_Q (1 # 100)) = false.
Proof.
  intros ms p home draw away.
  split; [reflexivity|]. split; [reflexivity|]. split; [reflexivity|].
  split; [reflexivity|]. split; [|vm_compute; reflexivity].
  vm_compute. intros C. now apply C.
Qed.

Lemma escaped_before_filtering_witness :
  let m := fixture "a&b" "C" 1 0 "2024-01-01" in
  generic_key "home_team" = true
  /\ has_special "A&B" = true
  /\ field_matches m "home_team" "A&B" = true
  /\ validateAndSanitizeParams [("home_team", "A&B")]
     = Ok [("home_team", PStr "A&amp;B")]
  /\ filterMatches [m] [("home_team", PStr "A&amp;B")] = Ok []
  /\ field_matches m "home_team" "A&amp;B" = false.
Proof.
  intros m. split; [reflexivity|]. split; [reflexivity|].
  split; [reflexivity|].
  pose proof (@escaped_before_filtering Iso.builtins "home_team" "A&B" [m] m
                eq_refl eq_refl)
    as (Stored & _ & _ & Kept & _ & Single & _).
  split; [exact Stored|]. split; [exact Kept|].
  apply Single; [discriminate | reflexivity].
Defined.

(** C10, as stated, fails under [team]: the record with home team [A&B]
    and away team [A&amp;B] has a field equal to the raw value [A&B], and
    the request [team=A&B] keeps it, the escaped text being its other
    team. *)
Lemma raw_team_kept_by_escaped_rival :
  generic_key "team" = true
  /\ has_special "A&B" = true
  /\ field_is (home_team escaped_rival) "A&B" = true
  /\ validateAndSanitizeParams [("team", "A&B")] = Ok [("team", PStr "A&amp;B")]
  /\ filterMatches [escaped_rival] [("team", PStr "A&amp;B")]
     = Ok [escaped_rival]
  /\ exists r : Response,
       processRequest [escaped_rival] [("team", "A&B")] = Ok r
       /\ matches r = [escaped_rival].
Proof.
  repeat split. eexists. split; reflexivity.
Qed.

End Scenarios.

(** * Further properties *)

(** ** Slices *)

Lemma array_slice_count {A : Type} (a : list A) (offset length : Z) :
  0 <= offset -> 0 <= length ->
  count (array_slice a offset length) = Z.max 0 (Z.min length (count a - offset)).
Proof.
  intros Ho Hl. unfold array_slice, count.
  rewrite length_firstn, length_skipn.
  destruct (offset >? Z.of_nat (List.length a)) eqn:E1.
  - apply Z.gtb_lt in E1.
    assert (E2 : (length <? 0) = false) by (apply Z.ltb_ge; lia).
    rewrite E2. lia.
  - rewrite Z.gtb_ltb in E1. apply Z.ltb_ge in E1.
    assert (E2 : (offset <? 0) = false) by (apply Z.ltb_ge; lia).
    assert (E3 : (length <? 0) = false) by (apply Z.ltb_ge; lia).
    rewrite E2, E3. lia.
Qed.


Section RequestBounds.

Context `{Builtins}.

(** X1: a response is paginated within bounds: the page is at least 1,
    the page size between 1 and 500, and the records returned are no more
    than the page size and no more than [total_matches]. *)
Theorem response_page_bounds (allMatches : list MatchRecord) (GET : array string)
    (r : Response) :
  processRequest allMatches GET = Ok r ->
  1 <= page r
  /\ 1 <= page_size r <= MAX_PAGE_SIZE
  /\ count (matches r) <= page_size r
  /\ count (matches r) <= total_matches r
  /\ count (matches r)
     = Z.max 0 (Z.min (page_size r)
                  (total_matches r - (page r - 1) * page_size r)).
Proof.
  unfold processRequest.
  destruct (validateAndSanitizeParams GET) as [params|]; [|discriminate].
  unfold bind at 1.
  destruct (filterMatches allMatches params) as [filtered|]; [|discriminate].
  unfold bind at 1.
  set (pg := match isset_int params "page" with
             | Some n => Z.max 1 n
             | None => 1
             end).
  set (sz := match isset_int params "page_size" with
             | Some n => Z.min (Z.max 1 n) MAX_PAGE_SIZE
             | None => DEFAULT_PAGE_SIZE
             end).
  assert (Hpg : 1 <= pg).
  { unfold pg. destruct (isset_int _ "page"); lia. }
  assert (Hsz : 1 <= sz <= MAX_PAGE_SIZE).
  { unfold sz, MAX_PAGE_SIZE, DEFAULT_PAGE_SIZE.
    destruct (isset_int _ "page_size"); lia. }
  destruct ((pg - 1) * sz <=? PHP_INT_MAX); [|discriminate].
  unfold bind. intros E. inversion E; subst r; clear E. simpl.
  rewrite array_slice_count by nia.
  pose proof (count_nonneg (usort by_date filtered)).
  repeat split; try lia; nia.
Qed.

End RequestBounds.

(** ** What the sanitizer stores *)

Lemma in_array_set {V : Type} (a : array V) (key k : string) (w v : V) :
  In (k, v) (array_set a key w) -> (k = key /\ v = w) \/ In (k, v) a.
Proof.
  induction a as [|[k0 w0] a IH]; simpl.
  - intros [E|[]]. inversion E. now left.
  - destruct (String.eqb k0 key) eqn:E; simpl.
    + apply String.eqb_eq in E. subst k0. intros [I|I].
      * inversion I. now left.
      * right. now right.
    + intros [I|I]; [right; now left|].
      destruct (IH I) as [J|J]; [now left | right; now right].
Qed.


Lemma array_get_in {V : Type} (a : array V) (k : string) (v : V) :
  array_get a k = Some v -> In (k, v) a.
Proof.
  induction a as [|[k0 w0] a IH]; simpl; [discriminate|].
  destruct (String.eqb k0 k) eqn:E.
  - apply String.eqb_eq in E. intros [= ->]. subst. now left.
  - intros G. right. auto.
Qed.

Lemma array_get_none_keys {V : Type} (a : array V) (k : string) :
  array_get a k = None -> ~ In k (map fst a).
Proof.
  induction a as [|[k0 w0] a IH]; simpl; [tauto|].
  destruct (String.eqb k0 k) eqn:E; [discriminate|].
  apply String.eqb_neq in E. intros G [I|I]; [congruence | now apply IH].
Qed.


Section SanitizerShape.

Context `{Builtins}.

Lemma sanitize_entry_in (acc acc' : array pvalue) (key value k : string)
    (v : pvalue) :
  sanitize_entry acc key value = Ok acc' -> In (k, v) acc' ->
  In (k, v) acc
  \/ (k = key /\ value <> ""
      /\ ((is_string v = false /\ (key = "page" \/ key = "page_size"))
          \/ (v = PStr (strtolower value) /\ key = "both_teams_scored"
              /\ existsb (String.eqb (strtolower value))
                   ["true"; "false"; "1"; "0"] = true)
          \/ (v = PStr (htmlspecialchars value)))).
Proof.
  unfold sanitize_entry.
  destruct (String.eqb value "") eqn:E0; [intros [= <-]; tauto|].
  apply String.eqb_neq in E0.
  destruct (String.eqb key "page" || String.eqb key "page_size") eqn:E1.
  { intros [= <-] I. apply in_array_set in I as [[-> ->]|I]; [|tauto].
    right. split; [reflexivity|]. split; [exact E0|]. left.
    split; [now destruct (filter_validate_int value)|].
    apply orb_true_iff in E1 as [E1|E1]; apply String.eqb_eq in E1; tauto. }
  destruct (String.eqb key "date") eqn:E2.
  { destruct (new_DateTime value); intros [= <-]; [|tauto].
    intros I. apply in_array_set in I as [[-> ->]|I]; tauto. }
  destruct (String.eqb key "both_teams_scored") eqn:E3.
  { destruct (existsb _ _) eqn:E4; intros [= <-]; [|tauto].
    intros I. apply in_array_set in I as [[-> ->]|I]; [|tauto].
    apply String.eqb_eq in E3. right. split; [reflexivity|].
    split; [exact E0|]. right. left. tauto. }
  destruct (integer_key key); [discriminate|].
  destruct (score_case key).
  { destruct (is_numeric value); intros [= <-]; [|tauto].
    intros I. apply in_array_set in I as [[-> ->]|I]; tauto. }
  intros [= <-] I. apply in_array_set in I as [[-> ->]|I]; tauto.
Qed.

Lemma sanitize_fold_in (params : array string) (acc out : array pvalue)
    (k : string) (v : pvalue) :
  fold_left (fun acc kv =>
               sanitizedParams <- acc ;;
               sanitize_entry sanitizedParams (fst kv) (snd kv))
    params (Ok acc) = Ok out ->
  In (k, v) out ->
  In (k, v) acc
  \/ exists value, In (k, value) params /\ value <> ""
      /\ ((is_string v = false /\ (k = "page" \/ k = "page_size"))
          \/ (v = PStr (strtolower value) /\ k = "both_teams_scored"
              /\ existsb (String.eqb (strtolower value))
                   ["true"; "false"; "1"; "0"] = true)
          \/ (v = PStr (htmlspecialchars value))).
Proof.
  revert acc. induction params as [|[key value] params IH]; intros acc E I.
  - simpl in E. injection E as <-. now left.
  - apply sanitize_fold_cons in E as (mid & E1 & E2).
    destruct (IH _ E2 I) as [J|[value' [J R]]].
    + apply (sanitize_entry_in _ _ _ _ _ _ E1) in J as [J|[-> R]]; [now left|].
      right. exists value. split; [now left | exact R].
    + right. exists value'. split; [now right | exact R].
Qed.

Lemma sanitized_entry_origin (GET : array string) (params : array pvalue)
    (k : string) (v : pvalue) :
  validateAndSanitizeParams GET = Ok params -> In (k, v) params ->
  exists value : string,
    In (k, value) GET /\ value <> ""
    /\ ((is_string v = false /\ (k = "page" \/ k = "page_size"))
        \/ (v = PStr (strtolower value) /\ k = "both_teams_scored"
            /\ existsb (String.eqb (strtolower value))
                 ["true"; "false"; "1"; "0"] = true)
        \/ (v = PStr (htmlspecialchars value))).
Proof.
  intros S I. apply (sanitize_fold_in _ _ _ _ _ S) in I as [[]|I]. exact I.
Qed.

(** X2: what the sanitized mapping can hold.  Every entry comes from a
    request parameter of the same name with a non-empty value; it is the
    escaped value, or for [both_teams_scored] the lower-cased value, one of
    [true], [false], [1], [0]; only [page] and [page_size] are bound to
    something that is not a string. *)
Theorem sanitized_entries (GET : array string) (params : array pvalue)
    (k : string) (v : pvalue) :
  validateAndSanitizeParams GET = Ok params -> In (k, v) params ->
  exists value : string,
    In (k, value) GET /\ value <> ""
    /\ ((is_string v = false /\ (k = "page" \/ k = "page_size"))
        \/ (v = PStr (strtolower value) /\ k = "both_teams_scored"
            /\ existsb (String.eqb (strtolower value))
                 ["true"; "false"; "1"; "0"] = true)
        \/ (v = PStr (htmlspecialchars value))).
Proof.
  intros S I.
  destruct (sanitized_entry_origin GET params k v S I) as (value & J & N & R).
  exists value. split; [exact J|]. split; [exact N | exact R].
Qed.




Lemma integer_key_unnamed (key : string) :
  integer_key key = true ->
  String.eqb key "page" || String.eqb key "page_size" = false
  /\ String.eqb key "date" = false
  /\ String.eqb key "both_teams_scored" = false.
Proof.
  intros I. repeat split.
  - apply orb_false_iff. split; apply String.eqb_neq; intros ->; discriminate I.
  - apply String.eqb_neq. intros ->. discriminate I.
  - apply String.eqb_neq. intros ->. discriminate I.
Qed.

Lemma sanitize_fold_raises (params : array string) (acc : array pvalue)
    (key value : string) :
  In (key, value) params -> integer_key key = true -> value <> "" ->
  fold_left (fun acc kv =>
               sanitizedParams <- acc ;;
               sanitize_entry sanitizedParams (fst kv) (snd kv))
    params (Ok acc) = TypeError.
Proof.
  intros I K V. revert acc.
  induction params as [|[k v] params IH]; intros acc; [contradiction|].
  simpl. destruct I as [I|I].
  - injection I as -> ->. unfold sanitize_entry.
    apply String.eqb_neq in V. rewrite V.
    destruct (integer_key_unnamed key K) as (-> & -> & ->). rewrite K.
    apply sanitize_fold_error.
  - destruct (sanitize_entry acc k v); [now apply IH|].
    apply sanitize_fold_error.
Qed.


(** X26: a request with a parameter whose name PHP holds as an integer
    key, such as [123] or [-5], and whose value is not empty, raises in
    the sanitizer whatever the dataset and the other parameters. *)
Theorem integer_named_request_raises (allMatches : list MatchRecord)
    (GET : array string) (key value : string) :
  In (key, value) GET -> integer_key key = true -> value <> "" ->
  validateAndSanitizeParams GET = TypeError
  /\ processRequest allMatches GET = TypeError.
Proof.
  intros I K V.
  assert (E : validateAndSanitizeParams GET = TypeError)
    by (apply (sanitize_fold_raises GET [] key value I K V)).
  split; [exact E|]. unfold processRequest. now rewrite E.
Qed.

End SanitizerShape.

(** ** What the filter keeps *)

Lemma filter_all {A : Type} (f : A -> bool) (l : list A) :
  (forall x, In x l -> f x = true) -> filter f l = l.
Proof.
  induction l as [|x l IH]; simpl; intros T; [reflexivity|].
  rewrite (T x) by now left. f_equal. apply IH. intros y I. apply T. now right.
Qed.

Section KeptRecords.

Context `{Builtins}.

Lemma array_filter_kept (f : MatchRecord -> result bool)
    (l kept : list MatchRecord) :
  array_filter f l = Ok kept -> forall m, In m kept -> f m = Ok true.
Proof.
  revert kept. induction l as [|x l IH]; simpl; intros kept E m I.
  - inversion E; subst. contradiction.
  - destruct (f x) as [keep|] eqn:F; [|discriminate]. simpl in E.
    destruct (array_filter f l) as [rest|]; [|discriminate]. simpl in E.
    inversion E; subst. destruct keep.
    + destruct I as [I|I]; [now subst | now apply (IH rest)].
    + now apply (IH rest).
Qed.

Lemma matchesAll_true (m : MatchRecord) (params : array pvalue) :
  matchesAll m params = Ok true ->
  forall k v, In (k, v) params -> matchParameter m k v = Ok true.
Proof.
  induction params as [|[k0 v0] params IH]; simpl; intros E k v I;
    [contradiction|].
  destruct (matchParameter m k0 v0) as [[|]|] eqn:M; simpl in E;
    try discriminate.
  destruct I as [I|I]; [inversion I; now subst | now apply IH].
Qed.

(** Every record that [filterMatches] keeps satisfies each entry of the
    mapping. *)
Lemma filterMatches_kept (ms kept : list MatchRecord) (params : array pvalue)
    (k : string) (v : pvalue) (m : MatchRecord) :
  filterMatches ms params = Ok kept -> In (k, v) params -> In m kept ->
  matchParameter m k v = Ok true.
Proof.
  destruct params as [|kv params]; [contradiction|].
  unfold filterMatches. intros E I J.
  apply (matchesAll_true m (kv :: params)); [|exact I].
  apply (array_filter_kept _ _ _ E m J).
Qed.

(** X4: a request with a non-empty [page] or [page_size] never returns a
    record: the filter raises on the first record that reaches the key,
    so when the request does return, no record was kept. *)
Theorem paginated_request_returns_nothing (allMatches : list MatchRecord)
    (GET : array string) (key value : string) (r : Response) :
  key = "page" \/ key = "page_size" ->
  NoDup (map fst GET) -> In (key, value) GET -> value <> "" ->
  processRequest allMatches GET = Ok r ->
  total_matches r = 0 /\ matches r = [].
Proof.
  intros K U I V.
  unfold processRequest.
  destruct (validateAndSanitizeParams GET) as [params|] eqn:S; [|discriminate].
  unfold bind at 1. cbv zeta.
  destruct (page_keys_kept GET params key value K U I V S) as [G _].
  apply array_get_in in G.
  destruct (filterMatches allMatches params)
    as [filtered|] eqn:F; [|discriminate].
  assert (E : filtered = []).
  { destruct filtered as [|m filtered]; [reflexivity|]. exfalso.
    pose proof (filterMatches_kept _ _ _ _ _ m F G (or_introl eq_refl)) as M.
    destruct (filter_validate_int value); discriminate M. }
  subst filtered. unfold bind at 1. simpl usort.
  destruct (_ <=? PHP_INT_MAX); [|discriminate].
  unfold bind. intros R. inversion R; subst r; clear R. simpl.
  split; [reflexivity|]. unfold array_slice. now rewrite skipn_nil, firstn_nil.
Qed.

Lemma string_or_empty_in (params : array pvalue) (key : string) :
  empty (string_or_empty params key) = false ->
  In (key, PStr (string_or_empty params key)) params.
Proof.
  unfold string_or_empty. intros E.
  destruct (array_get params key) as [[s| |]|] eqn:G; try discriminate E.
  now apply array_get_in.
Qed.

(** X5: when a response carries [team_analysis], the filter has already
    kept only the records with the requested home team at home and the
    requested away team away; so [matches_count] is [total_matches], and
    both the orientation-free selection of the analysis and the
    head-to-head selection of the prediction keep every filtered record. *)
Theorem team_analysis_counts_all (allMatches : list MatchRecord)
    (GET : array string) (r : Response) (analysis : TeamAnalysis) :
  processRequest allMatches GET = Ok r ->
  team_analysis r = Some analysis ->
  matches_count analysis = total_matches r
  /\ exists filteredMatches : list MatchRecord,
       count filteredMatches = total_matches r
       /\ teamAnalysisMatches (ta_home_team analysis) (ta_away_team analysis)
            filteredMatches = filteredMatches
       /\ h2hMatches (ta_home_team analysis) (ta_away_team analysis)
            filteredMatches = filteredMatches
       /\ prediction r
          = Some (runPrediction (ta_home_team analysis) (ta_away_team analysis)
                    filteredMatches).
Proof.
  unfold processRequest.
  destruct (validateAndSanitizeParams GET) as [params|]; [|discriminate].
  unfold bind at 1. cbv zeta.
  destruct (filterMatches allMatches params) as [filtered|] eqn:F;
    [|discriminate].
  unfold bind at 1.
  destruct (_ <=? PHP_INT_MAX); [|discriminate].
  unfold bind. intros R. inversion R; subst r; clear R. simpl.
  set (homeTeam := string_or_empty params "home_team").
  set (awayTeam := string_or_empty params "away_team").
  destruct (negb (empty homeTeam) && negb (empty awayTeam)) eqn:B;
    [|discriminate].
  apply andb_true_iff in B as [Bh Ba].
  apply negb_true_iff in Bh, Ba.
  apply string_or_empty_in in Bh, Ba. fold homeTeam in Bh. fold awayTeam in Ba.
  intros A. inversion A; subst analysis; clear A. simpl.
  assert (Exact : forall m, In m (usort by_date filtered) ->
            field_is (home_team m) homeTeam = true
            /\ field_is (away_team m) awayTeam = true).
  { intros m I.
    apply (Permutation_in _ (usort_perm by_date filtered)) in I.
    pose proof (filterMatches_kept _ _ _ _ _ m F Bh I) as Mh.
    pose proof (filterMatches_kept _ _ _ _ _ m F Ba I) as Ma.
    injection Mh as Mh. injection Ma as Ma. split; [exact Mh | exact Ma]. }
  assert (T : teamAnalysisMatches homeTeam awayTeam (usort by_date filtered)
              = usort by_date filtered).
  { apply filter_all. intros m I. destruct (Exact m I) as [Eh Ea].
    destruct (home_team m), (away_team m); simpl in Eh, Ea; try discriminate.
    now rewrite Eh, Ea. }
  assert (E : h2hMatches homeTeam awayTeam (usort by_date filtered)
              = usort by_date filtered).
  { apply filter_all. intros m I. destruct (Exact m I) as [Eh Ea].
    destruct (home_team m), (away_team m); simpl in Eh, Ea; try discriminate.
    now rewrite Eh, Ea. }
  split; [now rewrite T|].
  exists (usort by_date filtered). repeat split; assumption.
Qed.

End KeptRecords.

(** ** Escaping *)

Lemma has_markup_app (a b : string) :
  has_markup (a ++ b) = has_markup a || has_markup b.
Proof.
  induction a as [|c a IH]; simpl; [reflexivity|].
  now rewrite IH, orb_assoc.
Qed.

Lemma escape_char_markup (c : ascii) : has_markup (escape_char c) = false.
Proof.
  unfold escape_char.
  destruct (Ascii.eqb c "&"); [reflexivity|].
  destruct (Ascii.eqb c double_quote) eqn:Q; [reflexivity|].
  destruct (Ascii.eqb c "'") eqn:A; [reflexivity|].
  destruct (Ascii.eqb c "<") eqn:L; [reflexivity|].
  destruct (Ascii.eqb c ">") eqn:G; [reflexivity|].
  simpl. unfold markup_char. now rewrite L, G, Q, A.
Qed.

Lemma escape_markup (s : string) : has_markup (escape s) = false.
Proof.
  induction s as [|c s IH]; simpl; [reflexivity|].
  now rewrite has_markup_app, escape_char_markup, IH.
Qed.

Lemma htmlspecialchars_markup (s : string) :
  has_markup (htmlspecialchars s) = false.
Proof.
  unfold htmlspecialchars.
  destruct (valid_utf8 (String.length s) s); [apply escape_markup | reflexivity].
Qed.

Lemma escape_plain (s : string) : has_special s = false -> escape s = s.
Proof.
  induction s as [|c s IH]; simpl; [reflexivity|].
  intros E. apply orb_false_iff in E as [E1 E2]. rewrite (IH E2).
  unfold special_char in E1. unfold escape_char.
  repeat (apply orb_false_iff in E1; destruct E1 as [E1 ?]).
  repeat match goal with E : _ = false |- _ => rewrite E; clear E end.
  reflexivity.
Qed.

Section StoredStrings.

Context `{Builtins}.

(** X6: no string of the sanitized mapping holds [<], [>], a double or a
    single quote, whatever the request. *)
Theorem sanitized_strings_without_markup (GET : array string)
    (params : array pvalue) (k s : string) :
  validateAndSanitizeParams GET = Ok params -> In (k, PStr s) params ->
  has_markup s = false.
Proof.
  intros V I.
  apply (sanitized_entry_origin _ _ _ _ V) in I
    as (value & _ & _ & [[S _]|[(E & _ & B)|E]]).
  - discriminate S.
  - injection E as ->. simpl in B.
    repeat (apply orb_true_iff in B; destruct B as [B|B]);
      try discriminate B; apply String.eqb_eq in B; now rewrite B.
  - injection E as ->. apply htmlspecialchars_markup.
Qed.

(** X7: a value without [&], [<], [>] and quotes that is well-formed UTF-8
    goes through [htmlspecialchars] unchanged, so a team name made of such
    characters is stored as it was sent. *)
Theorem plain_value_stored_unchanged (key value : string) :
  generic_key key = true -> value <> "" -> has_special value = false ->
  valid_utf8 (String.length value) value = true ->
  htmlspecialchars value = value
  /\ validateAndSanitizeParams [(key, value)] = Ok [(key, PStr value)].
Proof.
  intros G V S U.
  assert (E : htmlspecialchars value = value).
  { unfold htmlspecialchars. rewrite U. now apply escape_plain. }
  split; [exact E|].
  rewrite (sanitize_generic key value G V). now rewrite E.
Qed.


End StoredStrings.

(** ** The score, date and order of the parameters *)

Lemma string_of_Z_inj (a b : Z) : string_of_Z a = string_of_Z b -> a = b.
Proof.
  unfold string_of_Z. intros E.
  assert (P : forall z, NilZero.int_of_string (NilZero.string_of_int (Z.to_int z))
                        = Some (Z.to_int z)).
  { intros z. apply NilZero.isi; destruct z; simpl; try discriminate;
      intros N; injection N as N; now apply DecimalPos.Unsigned.to_uint_nonnil in N. }
  pose proof (P a) as Pa. rewrite E, P in Pa. injection Pa as Pa.
  rewrite <- (DecimalZ.of_to a), <- (DecimalZ.of_to b). now rewrite Pa.
Qed.


Section Predicates.

Context `{Builtins}.

(** X9: a [score_<field>] parameter whose value is the decimal writing of
    an integer keeps, of the records that hold an integer under that
    field, exactly those that hold that integer, and of the records that
    hold a text, exactly those that hold that writing; a record without
    the field, or without a score object, fails it. *)
Theorem score_parameter_exact (m : MatchRecord) (key : string) (n : Z) :
  (forall z : Z,
     score_value m (str_replace_score_ key) = Some (VInt z) ->
     (matchesScore m key (string_of_Z n) = true <-> z = n))
  /\ (forall s : string,
        score_value m (str_replace_score_ key) = Some (VStr s) ->
        (matchesScore m key (string_of_Z n) = true <-> s = string_of_Z n))
  /\ (score_value m (str_replace_score_ key) = None ->
      forall value, matchesScore m key value = false)
  /\ (score m = None -> forall value, matchesScore m key value = false).
Proof.
  unfold matchesScore. split; [|split; [|split]].
  - intros z E. rewrite E. simpl. split.
    + intros S. now apply String.eqb_eq, string_of_Z_inj in S.
    + intros ->. apply String.eqb_refl.
  - intros s E. rewrite E. simpl. apply String.eqb_eq.
  - intros N value. now rewrite N.
  - intros N value. unfold score_value. now rewrite N.
Qed.

(** X10: the [date] parameter is a lower bound: with a parameter that
    parses, a record passes exactly when its date is set, parses, and is
    not before the parameter's; so a record that passes for one date passes
    for every earlier one. *)
Theorem date_parameter_since (m : MatchRecord) (value : string) (t : Z) :
  new_DateTime value = Some t ->
  (matchesDate m value = true
   <-> exists d td, date m = Some d /\ new_DateTime d = Some td /\ t <= td)
  /\ (forall earlier t', new_DateTime earlier = Some t' -> t' <= t ->
        matchesDate m value = true -> matchesDate m earlier = true).
Proof.
  intros P. unfold matchesDate. rewrite P. split.
  - destruct (date m) as [d|]; [destruct (new_DateTime d) as [td|] eqn:Pd|].
    + split.
      * intros E. apply Z.geb_le in E. exists d, td. tauto.
      * intros (d' & td' & Ed & D & L). injection Ed as <-.
        assert (Et : td' = td) by congruence. subst td'. now apply Z.geb_le.
    + split; [discriminate|]. intros (d' & td' & Ed & D & _).
      injection Ed as <-. congruence.
    + split; [discriminate|]. intros (d' & td' & D & _). discriminate.
  - intros earlier t' P' L.
    destruct (date m) as [d|]; [|discriminate].
    destruct (new_DateTime d) as [td|]; [|discriminate].
    rewrite P'. intros E. apply Z.geb_le in E. apply Z.geb_le. lia.
Qed.


(** X12: filtering again with the same mapping of strings changes
    nothing, and what the filter returns is its input with some records
    left out, the others in their order. *)
Theorem filterMatches_idempotent (ms kept : list MatchRecord)
    (params : array string) :
  filterMatches ms (strings params) = Ok kept ->
  filterMatches kept (strings params) = Ok kept
  /\ exists keep : MatchRecord -> bool, kept = filter keep ms.
Proof.
  rewrite filterMatches_strings. intros [= <-].
  rewrite filterMatches_strings. split.
  - f_equal. rewrite filter_filter. apply filter_ext. intros m.
    apply andb_diag.
  - eexists. reflexivity.
Qed.

End Predicates.

(** ** Sorting records whose dates parse *)

Section SortedByDate.

Context `{Builtins}.

Lemma by_date_timestamp (x y : MatchRecord) :
  sort_date x <> None -> sort_date y <> None ->
  by_date x y = Z.compare (timestamp y) (timestamp x).
Proof.
  unfold by_date, timestamp.
  destruct (sort_date x), (sort_date y); simpl; congruence.
Qed.

Lemma insert_sorted (x : MatchRecord) (l : list MatchRecord) :
  sort_date x <> None -> (forall m, In m l -> sort_date m <> None) ->
  StronglySorted (fun a b => timestamp b <= timestamp a) l ->
  StronglySorted (fun a b => timestamp b <= timestamp a) (insert by_date x l).
Proof.
  intros Dx. induction l as [|y l IH]; simpl; intros D S.
  - constructor; constructor.
  - inversion S as [|? ? S' F]; subst.
    assert (Dy : sort_date y <> None) by (apply D; now left).
    rewrite (by_date_timestamp x y Dx Dy).
    rewrite Forall_forall in F.
    destruct (Z.compare_spec (timestamp y) (timestamp x)) as [C|C|C].
    + constructor; [exact S|].
      constructor; [lia|]. apply Forall_forall. intros z I.
      specialize (F z I). lia.
    + constructor; [exact S|].
      constructor; [lia|]. apply Forall_forall. intros z I.
      specialize (F z I). lia.
    + constructor.
      * apply IH; [|exact S']. intros m I. apply D. now right.
      * apply Forall_forall. intros z I.
        apply insert_in in I as [->|I]; [lia | now apply F].
Qed.

Lemma insert_ties (x : MatchRecord) (l : list MatchRecord) (t : Z) :
  sort_date x <> None -> (forall m, In m l -> sort_date m <> None) ->
  filter (fun m => timestamp m =? t) (insert by_date x l)
  = filter (fun m => timestamp m =? t) (x :: l).
Proof.
  intros Dx. induction l as [|y l IH]; simpl; intros D; [reflexivity|].
  assert (Dy : sort_date y <> None) by (apply D; now left).
  rewrite (by_date_timestamp x y Dx Dy).
  destruct (Z.compare_spec (timestamp y) (timestamp x)) as [C|C|C];
    try reflexivity.
  simpl.
  rewrite IH by (intros m I; apply D; now right). simpl.
  destruct (timestamp x =? t) eqn:Ex; [|reflexivity].
  apply Z.eqb_eq in Ex.
  assert (Ey : (timestamp y =? t) = false) by (apply Z.eqb_neq; lia).
  now rewrite Ey.
Qed.

(** X13: when no record has an unparsable date, the records come out in
    descending order of their timestamps, a missing date counting as 0,
    and records with the same timestamp keep the order they had. *)
Theorem usort_by_date_sorted_stable (ms : list MatchRecord) :
  (forall m, In m ms -> sort_date m <> None) ->
  StronglySorted (fun a b => timestamp b <= timestamp a) (usort by_date ms)
  /\ forall t : Z,
       filter (fun m => timestamp m =? t) (usort by_date ms)
       = filter (fun m => timestamp m =? t) ms.
Proof.
  induction ms as [|x ms IH]; intros D.
  - split; [constructor | reflexivity].
  - assert (Dx : sort_date x <> None) by (apply D; now left).
    assert (D' : forall m, In m ms -> sort_date m <> None)
      by (intros m I; apply D; now right).
    assert (Ds : forall m, In m (usort by_date ms) -> sort_date m <> None).
    { intros m I. apply D'.
      now apply (Permutation_in _ (usort_perm by_date ms)). }
    destruct (IH D') as [S T]. simpl usort. split.
    + now apply insert_sorted.
    + intros t. rewrite (insert_ties x _ t Dx Ds). simpl. now rewrite T.
Qed.

End SortedByDate.

(** ** Records without a score *)

Lemma round2_percent (q : Q) :
  (0 <= q)%Q -> (q <= 1)%Q ->
  (0 <= round (q * 100) 2 /\ round (q * 100) 2 <= 100)%Q.
Proof.
  intros H0 H1.
  assert (Hx : (0 <= q * 100)%Q) by lra.
  rewrite (round2_unfold _ Hx).
  assert (L : 0 <= Qfloor (q * 100 * 100 + (1 # 2))).
  { apply (Qfloor_resp_le 0). lra. }
  assert (U : Qfloor (q * 100 * 100 + (1 # 2)) <= 10000).
  { apply (Qfloor_resp_le _ (20001 # 2)). lra. }
  rewrite Zle_Qle in L, U.
  change (inject_Z 0) with 0%Q in L. change (inject_Z 10000) with 10000%Q in U.
  split.
  - apply Qle_shift_div_l; [reflexivity | lra].
  - apply Qle_shift_div_r; [reflexivity | lra].
Qed.

Section StatisticsFacts.

Context `{Builtins}.

Lemma tally_valid (l : list MatchRecord) :
  tally (filter has_valid_score l) = tally l.
Proof.
  unfold tally. generalize (mkTally 0 0 0).
  induction l as [|m l IH]; intros acc; simpl; [reflexivity|].
  unfold has_valid_score at 1.
  destruct (valid_score m) as [[h a]|] eqn:V; simpl.
  - rewrite V. apply IH.
  - apply IH.
Qed.

Lemma filter_idem {A : Type} (f : A -> bool) (l : list A) :
  filter f (filter f l) = filter f l.
Proof.
  rewrite filter_filter. apply filter_ext. intros x. apply andb_diag.
Qed.

Lemma filter_comm {A : Type} (f g : A -> bool) (l : list A) :
  filter f (filter g l) = filter g (filter f l).
Proof.
  rewrite !filter_filter. apply filter_ext. intros x. apply andb_comm.
Qed.

Lemma calculateHeadToHeadStats_valid (ms : list MatchRecord) :
  calculateHeadToHeadStats ms
  = let validMatches := filter has_valid_score ms in
    let totalMatches := count validMatches in
    if totalMatches =? 0 then mkHeadToHeadStats 0 0 0 0 0 0
    else
      let stats := tally validMatches in
      mkHeadToHeadStats (home_wins stats) (away_wins stats) (draws stats)
        (round (div (home_wins stats) totalMatches * 100)%Q 2)
        (round (div (away_wins stats) totalMatches * 100)%Q 2)
        (round (div (draws stats) totalMatches * 100)%Q 2).
Proof. destruct ms; reflexivity. Qed.

(** X15: the head-to-head tallies count each record with both scores
    once: home wins, away wins and draws add up to the number of such
    records, and each percentage lies between 0 and 100. *)
Theorem head_to_head_totals (ms : list MatchRecord) :
  let stats := calculateHeadToHeadStats ms in
  0 <= h2h_home_wins stats /\ 0 <= h2h_away_wins stats /\ 0 <= h2h_draws stats
  /\ h2h_home_wins stats + h2h_away_wins stats + h2h_draws stats
     = count (filter has_valid_score ms)
  /\ (0 <= home_win_percentage stats /\ home_win_percentage stats <= 100)%Q
  /\ (0 <= away_win_percentage stats /\ away_win_percentage stats <= 100)%Q
  /\ (0 <= draw_percentage stats /\ draw_percentage stats <= 100)%Q.
Proof.
  unfold calculateHeadToHeadStats.
  destruct ms as [|m0 ms0] eqn:Ems.
  { simpl. repeat split; try lia; discriminate. }
  rewrite <- Ems. clear Ems m0 ms0.
  set (valid := filter has_valid_score ms).
  destruct (count valid =? 0) eqn:Z0.
  { apply Z.eqb_eq in Z0. simpl. rewrite Z0. repeat split; try lia; discriminate. }
  apply Z.eqb_neq in Z0. pose proof (count_nonneg valid) as N.
  pose proof (tally_total valid) as (T1 & T2 & T3 & T4).
  unfold valid in T4. rewrite filter_idem in T4. fold valid in T4.
  simpl.
  repeat split; try lia;
    try (apply round2_percent; apply div_unit; lia).
Qed.

(** X16: records lacking a score do not count in the head-to-head
    statistics, the both-teams-to-score probability, the expected goals or
    the predicted winner: each is the same on the whole sequence and on its
    records with both scores. *)
Theorem unscored_records_ignored (ms : list MatchRecord)
    (team homeTeam awayTeam : string) :
  let scored := filter has_valid_score ms in
  calculateHeadToHeadStats scored = calculateHeadToHeadStats ms
  /\ calculateBothTeamsToScoreProb scored = calculateBothTeamsToScoreProb ms
  /\ calculateExpectedGoals team scored = calculateExpectedGoals team ms
  /\ predictWinner homeTeam awayTeam scored = predictWinner homeTeam awayTeam ms.
Proof.
  intros scored. repeat split.
  - rewrite !calculateHeadToHeadStats_valid. unfold scored.
    now rewrite filter_idem.
  - unfold calculateBothTeamsToScoreProb. fold scored.
    replace (filter has_valid_score scored) with scored
      by (unfold scored; now rewrite filter_idem).
    reflexivity.
  - unfold calculateExpectedGoals. unfold scored.
    now rewrite (filter_comm (involves team)), filter_idem.
  - unfold predictWinner.
    assert (E : filter has_valid_score (h2hMatches homeTeam awayTeam scored)
                = filter has_valid_score (h2hMatches homeTeam awayTeam ms)).
    { unfold h2hMatches, scored.
      rewrite (filter_comm _ has_valid_score ms), filter_idem.
      reflexivity. }
    rewrite E.
    destruct (empty homeTeam || empty awayTeam); [reflexivity|].
    cbv beta iota delta [orb].
    assert (N : scored = [] ->
                filter has_valid_score (h2hMatches homeTeam awayTeam ms) = []).
    { intros Es. rewrite <- E, Es. reflexivity. }
    destruct scored as [|s scored']; destruct ms as [|m ms']; try reflexivity.
    now rewrite N.
Qed.

(** ** Average goals *)

Lemma goal_mass_nonneg (l : list MatchRecord) : 0 <= goal_mass l.
Proof. unfold goal_mass. induction l as [|m l IH]; simpl; lia. Qed.

Lemma goal_mass_app (l1 l2 : list MatchRecord) :
  goal_mass (l1 ++ l2) = goal_mass l1 + goal_mass l2.
Proof. unfold goal_mass. induction l1 as [|m l1 IH]; simpl; lia. Qed.

Lemma goal_mass_perm (l l' : list MatchRecord) :
  Permutation l l' -> goal_mass l = goal_mass l'.
Proof. unfold goal_mass. induction 1; simpl; lia. Qed.

Lemma goal_mass_in (m : MatchRecord) (l : list MatchRecord) :
  In m l -> Z.abs (home_goals m) + Z.abs (away_goals m) <= goal_mass l.
Proof.
  intros I. apply in_split in I as (l1 & l2 & ->).
  rewrite goal_mass_app. pose proof (goal_mass_nonneg l1).
  pose proof (goal_mass_nonneg l2). unfold goal_mass in *. simpl. lia.
Qed.

Lemma goal_mass_sums (l : list MatchRecord) :
  Z.abs (total home_goals l) + Z.abs (total away_goals l) <= goal_mass l.
Proof. unfold goal_mass. induction l as [|m l IH]; simpl; lia. Qed.

(** Under [sums_exact] no sum that the reductions reach leaves the
    integers that PHP adds exactly, as integers and as floats. *)
Lemma sums_exact_prefix (ms l1 l2 : list MatchRecord) :
  sums_exact ms -> ms = (l1 ++ l2)%list ->
  Z.abs (total home_goals l1) + Z.abs (total away_goals l1) <= 10 ^ 12 < 2 ^ 53.
Proof.
  unfold sums_exact. intros S ->. rewrite goal_mass_app in S.
  pose proof (goal_mass_sums l1). pose proof (goal_mass_nonneg l2).
  split; [lia | reflexivity].
Qed.

Lemma average_goals_fold (ms : list MatchRecord) (t h a : Z) :
  fold_left (fun (acc : Z * Z * Z) (m : MatchRecord) =>
               let '(total, home, away) := acc in
               let homeGoals :=
                 match score_field m "home" with Some h => h | None => 0 end in
               let awayGoals :=
                 match score_field m "away" with Some a => a | None => 0 end in
               (total + homeGoals + awayGoals, home + homeGoals,
                away + awayGoals)) ms (t, h, a)
  = (t + total home_goals ms + total away_goals ms,
     h + total home_goals ms, a + total away_goals ms).
Proof.
  revert t h a. induction ms as [|m ms IH]; intros t h a; simpl.
  - f_equal; [f_equal|]; lia.
  - rewrite IH. unfold home_goals, away_goals. f_equal; [f_equal|]; lia.
Qed.

(** X17: the goal averages divide by the number of all records, a record
    without a score counting as 0 goals; the empty sequence gives zeros.
    Each average being rounded on its own, the total average, counted in
    hundredths, is the sum of the home and away averages up to one
    hundredth.  The goals are taken to add up to no more than 10^12:
    every sum the reduction reaches then stays below 2^53, so that PHP's
    integer sums are the sums here. *)
Theorem average_goals_sums (ms : list MatchRecord) :
  sums_exact ms ->
  let averages := calculateAverageGoals ms in
  let n := count ms in
  (forall l1 l2 : list MatchRecord, ms = (l1 ++ l2)%list ->
     Z.abs (total home_goals l1) + Z.abs (total away_goals l1)
     <= 10 ^ 12 < 2 ^ 53)
  /\ (ms = [] -> averages = mkAverageGoals 0 0 0)
  /\ (ms <> [] ->
      average_home_goals averages = round (div (total home_goals ms) n) 2
      /\ average_away_goals averages = round (div (total away_goals ms) n) 2
      /\ average_total_goals averages
         = round (div (total home_goals ms + total away_goals ms) n) 2)
  /\ exists t h a : Z,
       (average_total_goals averages == inject_Z t / 100)%Q
       /\ (average_home_goals averages == inject_Z h / 100)%Q
       /\ (average_away_goals averages == inject_Z a / 100)%Q
       /\ -1 <= t - h - a <= 1.
Proof.
  intros Exact averages n.
  split; [intros l1 l2; now apply sums_exact_prefix|].
  assert (E : ms <> [] ->
              averages
              = mkAverageGoals
                  (round (div (total home_goals ms + total away_goals ms) n) 2)
                  (round (div (total home_goals ms) n) 2)
                  (round (div (total away_goals ms) n) 2)).
  { intros N. unfold averages, calculateAverageGoals.
    destruct ms as [|m ms']; [congruence|].
    rewrite average_goals_fold. reflexivity. }
  split; [intros ->; reflexivity|].
  split; [intros N; rewrite (E N); repeat split; reflexivity|].
  destruct ms as [|m ms'] eqn:Ems.
  { exists 0, 0, 0. repeat split; lia. }
  rewrite <- Ems in *. rewrite E by (rewrite Ems; discriminate).
  cbn [average_total_goals average_home_goals average_away_goals].
  set (hs := total home_goals ms). set (aws := total away_goals ms).
  destruct (round2_grid (div (hs + aws) n)) as (kt & Et & Lt & Ut).
  destruct (round2_grid (div hs n)) as (kh & Eh & Lh & Uh).
  destruct (round2_grid (div aws n)) as (ka & Ea & La & Ua).
  exists kt, kh, ka.
  split; [now rewrite Et|]. split; [now rewrite Eh|]. split; [now rewrite Ea|].
  assert (D : (div (hs + aws) n == div hs n + div aws n)%Q).
  { unfold div. rewrite inject_Z_plus. unfold Qdiv. ring. }
  rewrite D in Lt, Ut.
  split.
  - apply Z.lt_succ_r. apply Z.lt_pred_lt_succ. rewrite Zlt_Qlt.
    unfold Z.pred, Z.sub. rewrite !inject_Z_plus, !inject_Z_opp.
    change (inject_Z (-1)) with (-1)%Q. change (inject_Z 1) with 1%Q. lra.
  - apply Z.lt_succ_r. rewrite Zlt_Qlt. unfold Z.succ, Z.sub.
    rewrite !inject_Z_plus, !inject_Z_opp.
    change (inject_Z 1) with 1%Q. lra.
Qed.

(** ** Form index *)

Lemma form_points_fold (team : string) (l : list MatchRecord) (acc : Z) :
  fold_left (fun (sum : Z) (m : MatchRecord) =>
               match home_team m, away_team m, valid_score m with
               | Some home, Some _, Some (homeScore, awayScore) =>
                   let isHomeTeam := strcasecmp home team =? 0 in
                   if isHomeTeam then
                     if homeScore >? awayScore then sum + 3
                     else if homeScore =? awayScore then sum + 1
                     else sum
                   else
                     if awayScore >? homeScore then sum + 3
                     else if homeScore =? awayScore then sum + 1
                     else sum
               | _, _, _ => sum
               end) l acc
  = acc + total (points_for team) l.
Proof.
  revert acc. induction l as [|m l IH]; intros acc; simpl; [lia|].
  rewrite IH. unfold points_for.
  destruct (home_team m) as [home|]; [|lia].
  destruct (away_team m) as [away|]; [|lia].
  destruct (valid_score m) as [[hs aws]|]; [|lia].
  cbv zeta.
  destruct (strcasecmp home team =? 0);
    [destruct (hs >? aws) | destruct (aws >? hs)];
    try destruct (hs =? aws); lia.
Qed.

Lemma points_for_range (team : string) (m : MatchRecord) :
  0 <= points_for team m <= 3.
Proof.
  unfold points_for.
  destruct (home_team m); [|lia]. destruct (away_team m); [|lia].
  destruct (valid_score m) as [[hs aws]|]; [|lia].
  destruct (strcasecmp _ _ =? 0);
    [destruct (hs >? aws) | destruct (aws >? hs)];
    try destruct (hs =? aws); lia.
Qed.

Lemma total_points_range (team : string) (l : list MatchRecord) :
  0 <= total (points_for team) l <= 3 * count l.
Proof.
  induction l as [|m l IH]; unfold count in *; simpl; [lia|].
  pose proof (points_for_range team m). lia.
Qed.

Lemma in_firstn {A : Type} (n : nat) (l : list A) (x : A) :
  In x (firstn n l) -> In x l.
Proof.
  intros I. rewrite <- (firstn_skipn n l). apply in_or_app. now left.
Qed.

(** The form index over the matches considered. *)
Lemma calculateFormIndex_recent (ms : list MatchRecord) (team : string)
    (recentGames : Z) :
  0 <= recentGames ->
  calculateFormIndex ms team recentGames
  = if empty team then 0%Q
    else
      let recent := firstn (Z.to_nat recentGames) (filter (involves team) ms) in
      if count recent * 3 >? 0
      then round (div (total (points_for team) recent) (count recent * 3) * 100)%Q 2
      else 0%Q.
Proof.
  intros G. unfold calculateFormIndex.
  destruct (empty team); [reflexivity|].
  set (teamMatches := filter (involves team) ms).
  assert (R : array_slice teamMatches 0 (Z.min (count teamMatches) recentGames)
              = firstn (Z.to_nat recentGames) teamMatches).
  { unfold array_slice.
    pose proof (count_nonneg teamMatches) as N.
    assert (E1 : (0 >? count teamMatches) = false)
      by (rewrite Z.gtb_ltb; apply Z.ltb_ge; lia).
    assert (E2 : (Z.min (count teamMatches) recentGames <? 0) = false)
      by (apply Z.ltb_ge; lia).
    rewrite E1, E2. simpl skipn.
    destruct (Z.le_ge_cases (count teamMatches) recentGames) as [C|C].
    - rewrite Z.min_l by lia. unfold count in *.
      rewrite Nat2Z.id. rewrite !firstn_all2; try reflexivity; lia.
    - now rewrite Z.min_r by lia. }
  destruct teamMatches as [|m tm] eqn:T.
  - rewrite firstn_nil. reflexivity.
  - rewrite <- T in *. rewrite R, form_points_fold. reflexivity.
Qed.

(** X18: the form index lies between 0 and 100; it is 0 for an empty team
    name and for a team that plays in no record; and it reads only the
    first [recentGames] records the team plays in, in the order given. *)
Theorem form_index_range (ms : list MatchRecord) (team : string)
    (recentGames : Z) :
  0 <= recentGames ->
  (0 <= calculateFormIndex ms team recentGames
   /\ calculateFormIndex ms team recentGames <= 100)%Q
  /\ (empty team = true -> calculateFormIndex ms team recentGames = 0%Q)
  /\ (filter (involves team) ms = [] ->
      calculateFormIndex ms team recentGames = 0%Q)
  /\ calculateFormIndex ms team recentGames
     = calculateFormIndex
         (firstn (Z.to_nat recentGames) (filter (involves team) ms))
         team recentGames.
Proof.
  intros G. rewrite !(calculateFormIndex_recent _ team recentGames G).
  split; [|split; [|split]].
  - destruct (empty team); [split; discriminate|]. cbv zeta.
    set (recent := firstn _ _).
    destruct (count recent * 3 >? 0) eqn:P; [|split; discriminate].
    apply Z.gtb_lt in P. apply round2_percent; apply div_unit;
      pose proof (total_points_range team recent); lia.
  - now intros ->.
  - intros ->. rewrite firstn_nil. now destruct (empty team).
  - destruct (empty team); [reflexivity|].
    rewrite (filter_all (involves team)
               (firstn (Z.to_nat recentGames) (filter (involves team) ms))).
    + now rewrite firstn_firstn, Nat.min_id.
    + intros m I. apply in_firstn in I. apply filter_In in I. tauto.
Qed.

(** ** The roster *)





(** ** Team names and case *)

Lemma empty_strtolower (s : string) : empty (strtolower s) = empty s.
Proof.
  destruct s as [|c s]; [reflexivity|].
  destruct s as [|d s]; simpl.
  - destruct c as [[] [] [] [] [] [] [] []]; reflexivity.
  - unfold empty. simpl.
    destruct (Ascii.eqb (lower_char c) "0"), (Ascii.eqb c "0"); reflexivity.
Qed.

Lemma same_case_empty (a b : string) :
  strcasecmp a b = 0 -> empty a = empty b.
Proof.
  intros E. apply strcasecmp_0 in E.
  now rewrite <- (empty_strtolower a), <- (empty_strtolower b), E.
Qed.

Lemma same_case_strcasecmp (a b x : string) :
  strcasecmp a b = 0 -> strcasecmp x a = strcasecmp x b.
Proof.
  intros E. apply strcasecmp_0 in E. unfold strcasecmp. now rewrite E.
Qed.

Lemma same_case_field_is (a b : string) (f : option string) :
  strcasecmp a b = 0 -> field_is f a = field_is f b.
Proof.
  intros E. destruct f as [x|]; simpl; [|reflexivity].
  now rewrite (same_case_strcasecmp a b x E).
Qed.

Lemma fold_left_ext {A B : Type} (f g : A -> B -> A) (l : list B) (a : A) :
  (forall a b, f a b = g a b) -> fold_left f l a = fold_left g l a.
Proof.
  intros E. revert a. induction l as [|b l IH]; intros a; simpl;
    [reflexivity | now rewrite E, IH].
Qed.

(** X20: team names count up to the case of ASCII letters: two spellings
    of a team give the same expected goals and form index, and two
    spellings of the home and of the away team give the same head-to-head
    records and the same predicted winner. *)
Theorem team_spelling_irrelevant (ms : list MatchRecord) (recentGames : Z)
    (team team' awayTeam awayTeam' : string) :
  strcasecmp team team' = 0 -> strcasecmp awayTeam awayTeam' = 0 ->
  calculateExpectedGoals team ms = calculateExpectedGoals team' ms
  /\ calculateFormIndex ms team recentGames
     = calculateFormIndex ms team' recentGames
  /\ h2hMatches team awayTeam ms = h2hMatches team' awayTeam' ms
  /\ predictWinner team awayTeam ms = predictWinner team' awayTeam' ms.
Proof.
  intros E Ea.
  assert (I : forall m, involves team m = involves team' m).
  { intros m. unfold involves.
    now rewrite !(same_case_field_is team team' _ E). }
  assert (F : filter (involves team) ms = filter (involves team') ms)
    by (apply filter_ext; exact I).
  assert (H2 : h2hMatches team awayTeam ms = h2hMatches team' awayTeam' ms).
  { unfold h2hMatches. apply filter_ext. intros m.
    destruct (home_team m) as [h|]; [|reflexivity].
    destruct (away_team m) as [a|]; [|reflexivity].
    now rewrite (same_case_strcasecmp team team' h E),
                (same_case_strcasecmp awayTeam awayTeam' a Ea). }
  split; [|split; [|split]].
  - unfold calculateExpectedGoals.
    rewrite (same_case_empty team team' E), F.
    destruct (empty team'); [reflexivity|].
    destruct (filter has_valid_score (filter (involves team') ms));
      [reflexivity|].
    f_equal. f_equal. apply fold_left_ext. intros sum r.
    now rewrite (same_case_strcasecmp team team' _ E).
  - unfold calculateFormIndex.
    rewrite (same_case_empty team team' E), F.
    destruct (empty team'); [reflexivity|].
    destruct (filter (involves team') ms); [reflexivity|].
    set (recent := array_slice _ _ _).
    assert (P : forall l acc,
      fold_left (fun (sum : Z) (m : MatchRecord) =>
               match home_team m, away_team m, valid_score m with
               | Some home, Some _, Some (homeScore, awayScore) =>
                   let isHomeTeam := strcasecmp home team =? 0 in
                   if isHomeTeam then
                     if homeScore >? awayScore then sum + 3
                     else if homeScore =? awayScore then sum + 1
                     else sum
                   else
                     if awayScore >? homeScore then sum + 3
                     else if homeScore =? awayScore then sum + 1
                     else sum
               | _, _, _ => sum
               end) l acc
      = fold_left (fun (sum : Z) (m : MatchRecord) =>
               match home_team m, away_team m, valid_score m with
               | Some home, Some _, Some (homeScore, awayScore) =>
                   let isHomeTeam := strcasecmp home team' =? 0 in
                   if isHomeTeam then
                     if homeScore >? awayScore then sum + 3
                     else if homeScore =? awayScore then sum + 1
                     else sum
                   else
                     if awayScore >? homeScore then sum + 3
                     else if homeScore =? awayScore then sum + 1
                     else sum
               | _, _, _ => sum
               end) l acc).
    { intros l0 acc. apply fold_left_ext. intros sum r.
      destruct (home_team r) as [h|]; [|reflexivity].
      now rewrite (same_case_strcasecmp team team' h E). }
    now rewrite P.
  - exact H2.
  - unfold predictWinner.
    now rewrite (same_case_empty team team' E),
                (same_case_empty awayTeam awayTeam' Ea), H2.
Qed.

(** ** Confidence *)

(** X21: a predicted home or away win rests on strictly more than a third
    of the scored head-to-head records, so its confidence is at least
    0.33; and a predicted draw is what remains, a tie between home and
    away wins included. *)
Theorem decisive_prediction_confidence (homeTeam awayTeam : string)
    (ms : list MatchRecord) :
  let p := predictWinner homeTeam awayTeam ms in
  let stats := tally (filter has_valid_score (h2hMatches homeTeam awayTeam ms)) in
  (winner p = "home" ->
   home_wins stats > away_wins stats /\ home_wins stats > draws stats
   /\ (33 # 100 <= confidence p)%Q)
  /\ (winner p = "away" ->
      away_wins stats > home_wins stats /\ away_wins stats > draws stats
      /\ (33 # 100 <= confidence p)%Q)
  /\ (winner p = "draw" ->
      ~ (home_wins stats > away_wins stats /\ home_wins stats > draws stats)
      /\ ~ (away_wins stats > home_wins stats /\ away_wins stats > draws stats)).
Proof.
  intros p stats. subst p stats. unfold predictWinner.
  destruct (empty homeTeam || empty awayTeam
            || match ms with [] => true | _ => false end).
  { simpl. repeat split; discriminate. }
  set (valid := filter has_valid_score (h2hMatches homeTeam awayTeam ms)).
  pose proof (tally_total valid) as (T1 & T2 & T3 & T4).
  assert (Fv : filter has_valid_score valid = valid)
    by (unfold valid; apply filter_idem).
  rewrite Fv in T4.
  set (stats := tally valid) in *.
  destruct valid as [|m valid'] eqn:V.
  { simpl. repeat split; discriminate. }
  rewrite <- V in *.
  assert (Third : forall k, 0 < k -> count valid <= 3 * k - 2 ->
            (33 # 100 <= round (div k (count valid)) 2)%Q).
  { intros k K N.
    assert (Np : 0 < count valid) by (rewrite V; unfold count; simpl; lia).
    change (33 # 100)%Q with (round (1 # 3) 2).
    apply round2_monotone; [discriminate|].
    unfold div. apply Qle_shift_div_l; [now apply inject_Z_pos|].
    assert (Q3 : (inject_Z (count valid) <= inject_Z (3 * k))%Q)
      by (apply inject_Z_le; lia).
    rewrite inject_Z_mult in Q3. change (inject_Z 3) with 3%Q in Q3. lra. }
  destruct ((home_wins stats >? away_wins stats)
            && (home_wins stats >? draws stats)) eqn:Hm.
  { apply andb_true_iff in Hm as [H1 H2].
    apply Z.gtb_lt in H1, H2. simpl.
    repeat split; try discriminate; try lia. apply Third; lia. }
  destruct ((away_wins stats >? home_wins stats)
            && (away_wins stats >? draws stats)) eqn:Am.
  { apply andb_true_iff in Am as [A1 A2].
    apply Z.gtb_lt in A1, A2. simpl.
    repeat split; try discriminate; try lia. apply Third; lia. }
  simpl. split; [discriminate|]. split; [discriminate|]. intros _.
  apply andb_false_iff in Hm, Am. split.
  - intros [G1 G2]. destruct Hm as [Hm|Hm];
      rewrite ?Z.gtb_ltb in Hm; try apply Z.ltb_ge in Hm; lia.
  - intros [G1 G2]. destruct Am as [Am|Am];
      rewrite ?Z.gtb_ltb in Am; try apply Z.ltb_ge in Am; lia.
Qed.

(** ** The prediction payload *)

Lemma both_teams_to_score_range (ms : list MatchRecord) :
  (0 <= calculateBothTeamsToScoreProb ms
   /\ calculateBothTeamsToScoreProb ms <= 100)%Q.
Proof.
  unfold calculateBothTeamsToScoreProb.
  set (valid := filter has_valid_score ms).
  destruct valid as [|m valid'] eqn:V; [split; discriminate|].
  rewrite <- V.
  assert (N : 0 < count valid) by (rewrite V; unfold count; simpl; lia).
  pose proof (count_nonneg (filter both_scored valid)).
  pose proof (count_filter_le both_scored valid).
  apply round2_percent; apply div_unit; lia.
Qed.

(** X22: in the payload of [runPrediction] the label is
    [insufficient_data] exactly when the winner is unknown and otherwise
    names the winner; each of the three win probabilities lies between 0
    and 1, the predicted outcome getting the confidence; and the
    both-teams-to-score probability lies between 0 and 100. *)
Theorem prediction_payload_consistent (homeTeam awayTeam : string)
    (ms : list MatchRecord) :
  let payload := runPrediction homeTeam awayTeam ms in
  let models := modelPredictions payload in
  (randomForest models = "insufficient_data"
   <-> predictedWinner payload = "unknown")
  /\ (randomForest models = "insufficient_data"
      \/ randomForest models = "home_win" \/ randomForest models = "away_win"
      \/ randomForest models = "draw_win")
  /\ (0 <= elo_homeWinProb models /\ elo_homeWinProb models <= 1)%Q
  /\ (0 <= elo_drawProb models /\ elo_drawProb models <= 1)%Q
  /\ (0 <= elo_awayWinProb models /\ elo_awayWinProb models <= 1)%Q
  /\ (calculateWinProbability (predictWinner homeTeam awayTeam ms)
        (predictedWinner payload)
      == (if String.eqb (predictedWinner payload) "unknown"
          then 33 # 100 else predictedConfidence payload))%Q
  /\ (0 <= bothTeamsToScoreProb payload
      /\ bothTeamsToScoreProb payload <= 100)%Q.
Proof.
  intros payload models. unfold models, payload, runPrediction.
  cbn [modelPredictions randomForest elo_homeWinProb elo_drawProb
       elo_awayWinProb predictedWinner predictedConfidence bothTeamsToScoreProb].
  pose proof (predictWinner_predicted homeTeam awayTeam ms) as P.
  pose proof (predicted_confidence _ P) as [C0 C1].
  pose proof (both_teams_to_score_range ms) as B.
  destruct P as [|w k n W K N].
  - cbn [winner confidence unknown_prediction].
    unfold calculateWinProbability. cbn [winner unknown_prediction].
    change (String.eqb "unknown" "unknown") with true. cbv iota.
    change (round (div 1 3) 2) with (33 # 100)%Q.
    split; [tauto|]. split; [tauto|].
    do 3 (split; [split; discriminate|]).
    split; [reflexivity | exact B].
  - cbn [winner confidence] in *. set (c := round (div k n) 2) in *.
    assert (O : (0 <= round ((1 - c) / 2) 2 /\ round ((1 - c) / 2) 2 <= 1)%Q).
    { apply round2_unit.
      - apply Qle_shift_div_l; [reflexivity | lra].
      - apply Qle_shift_div_r; [reflexivity | lra]. }
    unfold calculateWinProbability. cbn [winner confidence]. fold c.
    destruct W as [W|[W|W]]; subst w;
      repeat match goal with
             | |- context [String.eqb ?a ?b] =>
                 let v := eval vm_compute in (String.eqb a b) in
                 change (String.eqb a b) with v
             end;
      cbv iota; (split; [split; discriminate|]);
      (split; [simpl; tauto|]);
      repeat (split; [tauto|]); (split; [reflexivity | exact B]).
Qed.

(** ** The two selections *)

Lemma count_filter_or {A : Type} (p q : A -> bool) (l : list A) :
  (forall x, p x = true -> q x = true -> False) ->
  count (filter (fun x => p x || q x) l)
  = count (filter p l) + count (filter q l).
Proof.
  intros D. unfold count.
  assert (E : List.length (filter (fun x => p x || q x) l)
              = (List.length (filter p l) + List.length (filter q l))%nat).
  { induction l as [|x l IH]; simpl; [reflexivity|].
    destruct (p x) eqn:P, (q x) eqn:Q; simpl; try lia.
    exfalso. exact (D x P Q). }
  lia.
Qed.

(** X23: the selection of the team analysis does not depend on which team
    is named first, and for two different teams it is made of the
    head-to-head records of both orientations, none counted twice. *)
Theorem team_analysis_both_orientations (homeTeam awayTeam : string)
    (ms : list MatchRecord) :
  teamAnalysisMatches homeTeam awayTeam ms
  = teamAnalysisMatches awayTeam homeTeam ms
  /\ (strcasecmp homeTeam awayTeam <> 0 ->
      count (teamAnalysisMatches homeTeam awayTeam ms)
      = count (h2hMatches homeTeam awayTeam ms)
        + count (h2hMatches awayTeam homeTeam ms)).
Proof.
  split.
  - unfold teamAnalysisMatches. apply filter_ext. intros m.
    destruct (home_team m), (away_team m); try reflexivity. apply orb_comm.
  - intros D. unfold teamAnalysisMatches, h2hMatches.
    rewrite <- count_filter_or.
    + f_equal. apply filter_ext. intros m.
      now destruct (home_team m), (away_team m).
    + intros m P Q. apply D.
      destruct (home_team m) as [h|]; [|discriminate].
      destruct (away_team m) as [a|]; [|discriminate].
      apply andb_true_iff in P as [P1 _]. apply andb_true_iff in Q as [Q1 _].
      apply Z.eqb_eq, strcasecmp_0 in P1, Q1. apply strcasecmp_0. congruence.
Qed.

End StatisticsFacts.

Section Envelope.

Context `{Builtins}.

Lemma sanitized_absent (GET : array string) (params : array pvalue)
    (key : string) :
  array_get GET key = None -> validateAndSanitizeParams GET = Ok params ->
  array_get params key = None.
Proof.
  intros N V.
  rewrite (sanitize_fold_other GET [] params key);
    [reflexivity | now apply array_get_none_keys | exact V].
Qed.

(** X24: a response carries the team analysis and the prediction
    together or not at all, and carries neither when the request names no
    home team or no away team; the roster is that of the whole dataset
    whatever the request. *)
Theorem analysis_and_prediction_together (allMatches : list MatchRecord)
    (GET : array string) (r : Response) :
  processRequest allMatches GET = Ok r ->
  (team_analysis r = None <-> prediction r = None)
  /\ (array_get GET "home_team" = None \/ array_get GET "away_team" = None ->
      team_analysis r = None /\ prediction r = None)
  /\ teams r = getAvailableTeams allMatches.
Proof.
  unfold processRequest.
  destruct (validateAndSanitizeParams GET) as [params|] eqn:V; [|discriminate].
  unfold bind at 1. cbv zeta.
  destruct (filterMatches allMatches params); [|discriminate].
  unfold bind at 1. destruct (_ <=? PHP_INT_MAX); [|discriminate].
  unfold bind. intros R. inversion R; subst r; clear R.
  cbn [team_analysis prediction teams].
  split; [|split; [|reflexivity]].
  - destruct (negb _ && negb _); split; intros E; congruence.
  - intros N.
    assert (E : empty (string_or_empty params "home_team") = true
                \/ empty (string_or_empty params "away_team") = true).
    { unfold string_or_empty.
      destruct N as [N|N]; [left | right];
        now rewrite (sanitized_absent GET params _ N V). }
    destruct E as [E|E]; rewrite E; simpl; rewrite ?andb_false_r; tauto.
Qed.

End Envelope.

(** ** The order of the records *)

Lemma fold_left_perm {A B : Type} (f : A -> B -> A) (l l' : list B) :
  (forall a x y, f (f a x) y = f (f a y) x) ->
  Permutation l l' -> forall a, fold_left f l a = fold_left f l' a.
Proof.
  intros C P. induction P; intros a; simpl.
  - reflexivity.
  - apply IHP.
  - now rewrite C.
  - now rewrite IHP1, IHP2.
Qed.

Lemma filter_perm {A : Type} (f : A -> bool) (l l' : list A) :
  Permutation l l' -> Permutation (filter f l) (filter f l').
Proof.
  induction 1; simpl.
  - constructor.
  - destruct (f x); [now constructor | assumption].
  - destruct (f x), (f y); try reflexivity. apply perm_swap.
  - now transitivity (filter f l').
Qed.

Lemma count_perm {A : Type} (l l' : list A) :
  Permutation l l' -> count l = count l'.
Proof. intros P. unfold count. now rewrite (Permutation_length P). Qed.

Lemma perm_empty {A : Type} (l l' : list A) :
  Permutation l l' ->
  match l with [] => true | _ => false end
  = match l' with [] => true | _ => false end.
Proof.
  intros P. destruct l, l'; try reflexivity.
  - apply Permutation_nil in P. discriminate.
  - apply Permutation_sym, Permutation_nil in P. discriminate.
Qed.

Section OrderFacts.

Context `{Builtins}.

Lemma tally_perm (l l' : list MatchRecord) :
  Permutation l l' -> tally l = tally l'.
Proof.
  intros P. unfold tally. apply fold_left_perm; [|exact P].
  intros acc x y.
  destruct (valid_score x) as [[hx ax]|], (valid_score y) as [[hy ay]|];
    try reflexivity.
  destruct (hx >? ax), (hy >? ay), (hx <? ax), (hy <? ay); reflexivity.
Qed.

Lemma Qplus_swap (s x y : Q) : (s + x + y)%Q = (s + y + x)%Q.
Proof.
  destruct s as [sn sd], x as [xn xd], y as [yn yd].
  unfold Qplus. simpl. f_equal.
  - rewrite !Pos2Z.inj_mul. ring.
  - rewrite <- !Pos.mul_assoc. f_equal. apply Pos.mul_comm.
Qed.

(** X25: apart from the form index, the statistics do not depend on the
    order of the records: on two sequences with the same records the
    both-teams-scored percentage, the goal averages, the head-to-head
    statistics, the both-teams-to-score probability, the expected goals
    and the predicted winner are the same; so sorting by date does not
    change them.  The scores are taken to be integers that add up to no
    more than 10^12: every number added is then an integer, as a float
    too, and the sums stay below 2^53 in whatever order, so that PHP's
    sums are the sums here. *)
Theorem statistics_order_independent (ms ms' : list MatchRecord)
    (team homeTeam awayTeam : string) :
  Permutation ms ms' ->
  (forall m, In m ms -> integer_scored m = true) ->
  sums_exact ms ->
  (sums_exact ms'
   /\ forall (m : MatchRecord) (v : value), In m ms' ->
        score_value m "home" = Some v \/ score_value m "away" = Some v ->
        exists z : Z,
          v = VInt z /\ floatval v = inject_Z z /\ Z.abs z <= 10 ^ 12)
  /\ calculateBothTeamsScoredPercentage ms = calculateBothTeamsScoredPercentage ms'
  /\ calculateAverageGoals ms = calculateAverageGoals ms'
  /\ calculateHeadToHeadStats ms = calculateHeadToHeadStats ms'
  /\ calculateBothTeamsToScoreProb ms = calculateBothTeamsToScoreProb ms'
  /\ calculateExpectedGoals team ms = calculateExpectedGoals team ms'
  /\ predictWinner homeTeam awayTeam ms = predictWinner homeTeam awayTeam ms'.
Proof.
  intros P Int Exact.
  assert (Pv : Permutation (filter has_valid_score ms)
                 (filter has_valid_score ms')) by now apply filter_perm.
  split; [|split; [|split; [|split; [|split; [|split]]]]].
  - unfold sums_exact in *. split; [now rewrite <- (goal_mass_perm _ _ P)|].
    intros m v I E.
    apply (Permutation_in _ (Permutation_sym P)) in I.
    pose proof (goal_mass_in m ms I) as B. specialize (Int m I).
    unfold integer_scored in Int. apply andb_true_iff in Int as [Ih Ia].
    unfold home_goals, away_goals, score_field in B.
    destruct E as [E|E]; rewrite E in *;
      destruct v as [z| | | |]; try discriminate;
      exists z; (split; [reflexivity|]); (split; [reflexivity|]);
      simpl in B; lia.
  - unfold calculateBothTeamsScoredPercentage.
    rewrite !both_positive_fold, (count_perm _ _ P),
      (count_perm _ _ (filter_perm both_positive _ _ P)).
    reflexivity.
  - unfold calculateAverageGoals.
    destruct ms as [|m ms0] eqn:E, ms' as [|m' ms0'] eqn:E'; try reflexivity.
    + apply Permutation_nil in P. discriminate.
    + apply Permutation_sym, Permutation_nil in P. discriminate.
    + rewrite <- E, <- E' in *. rewrite !average_goals_fold.
      assert (T : forall f, total f ms = total f ms').
      { intros f. clear -P. induction P; simpl; lia. }
      now rewrite (count_perm _ _ P), !(T home_goals), !(T away_goals).
  - rewrite !calculateHeadToHeadStats_valid. cbv zeta.
    now rewrite (count_perm _ _ Pv), (tally_perm _ _ Pv).
  - unfold calculateBothTeamsToScoreProb.
    rewrite (count_perm _ _ (filter_perm both_scored _ _ Pv)).
    pose proof (count_perm _ _ Pv) as Cv. pose proof (perm_empty _ _ Pv) as Ev.
    destruct (filter has_valid_score ms), (filter has_valid_score ms');
      try discriminate Ev; [reflexivity|].
    now rewrite Cv.
  - unfold calculateExpectedGoals. destruct (empty team); [reflexivity|].
    assert (Pt : Permutation
                   (filter has_valid_score (filter (involves team) ms))
                   (filter has_valid_score (filter (involves team) ms')))
      by now apply filter_perm, filter_perm.
    pose proof (count_perm _ _ Pt) as Ct. pose proof (perm_empty _ _ Pt) as Et.
    assert (S : forall acc,
      fold_left (fun (sum : Q) (m : MatchRecord) =>
                   let isHomeTeam :=
                     strcasecmp (match home_team m with
                                 | Some h => h | None => "" end) team =? 0 in
                   match score_value m "home", score_value m "away" with
                   | Some home, Some away =>
                       (sum + floatval (if isHomeTeam then home else away))%Q
                   | _, _ => sum
                   end) (filter has_valid_score (filter (involves team) ms)) acc
      = fold_left (fun (sum : Q) (m : MatchRecord) =>
                   let isHomeTeam :=
                     strcasecmp (match home_team m with
                                 | Some h => h | None => "" end) team =? 0 in
                   match score_value m "home", score_value m "away" with
                   | Some home, Some away =>
                       (sum + floatval (if isHomeTeam then home else away))%Q
                   | _, _ => sum
                   end) (filter has_valid_score (filter (involves team) ms')) acc).
    { apply fold_left_perm; [|exact Pt]. intros sum x y. cbv zeta.
      destruct (score_value x "home") as [hx|], (score_value x "away") as [ax|],
               (score_value y "home") as [hy|], (score_value y "away") as [ay|];
        try reflexivity.
      apply Qplus_swap. }
    destruct (filter has_valid_score (filter (involves team) ms)),
             (filter has_valid_score (filter (involves team) ms'));
      try discriminate Et; [reflexivity|].
    now rewrite S, Ct.
  - unfold predictWinner. rewrite (perm_empty _ _ P).
    destruct (empty homeTeam || empty awayTeam
              || match ms' with [] => true | _ => false end); [reflexivity|].
    assert (Ph : Permutation
                   (filter has_valid_score (h2hMatches homeTeam awayTeam ms))
                   (filter has_valid_score (h2hMatches homeTeam awayTeam ms')))
      by now apply filter_perm, filter_perm.
    pose proof (count_perm _ _ Ph) as Ch. pose proof (perm_empty _ _ Ph) as Eh.
    pose proof (tally_perm _ _ Ph) as Th.
    destruct (filter has_valid_score (h2hMatches homeTeam awayTeam ms)),
             (filter has_valid_score (h2hMatches homeTeam awayTeam ms'));
      try discriminate Eh; [reflexivity|].
    now rewrite Th, Ch.
Qed.

End OrderFacts.

(** ** Integers written and read back *)

Lemma ltrim_no_space (s : string) : no_space s = true -> ltrim s = s.
Proof.
  destruct s as [|c s]; simpl; [reflexivity|].
  intros E. apply andb_true_iff in E as [E _]. apply negb_true_iff in E.
  now rewrite E.
Qed.

Lemma rtrim_no_space (s : string) : no_space s = true -> rtrim s = s.
Proof.
  induction s as [|c s IH]; simpl; [reflexivity|].
  intros E. apply andb_true_iff in E as [E1 E2]. apply negb_true_iff in E1.
  rewrite (IH E2). destruct s; [now rewrite E1 | reflexivity].
Qed.

Lemma filter_trim_no_space (s : string) : no_space s = true -> filter_trim s = s.
Proof.
  intros E. unfold filter_trim. rewrite (ltrim_no_space s E).
  now apply rtrim_no_space.
Qed.

Lemma string_of_uint_no_space (d : Decimal.uint) :
  no_space (NilEmpty.string_of_uint d) = true.
Proof. induction d; simpl; auto. Qed.

Ltac digit_step c k IH :=
  simpl NilEmpty.string_of_uint; cbn [digits];
  change (digit c) with (Some k); cbv iota; cbn [Pos.of_uint_acc];
  match goal with
  | |- digits ?z _ = Some (Z.pos (Pos.of_uint_acc _ ?a)) =>
      replace z with (Z.pos a) by lia
  end;
  apply IH.

Lemma digits_of_uint_acc (d : Decimal.uint) (acc : positive) :
  digits (Z.pos acc) (NilEmpty.string_of_uint d)
  = Some (Z.pos (Pos.of_uint_acc d acc)).
Proof.
  revert acc. induction d; intros acc.
  - reflexivity.
  - digit_step "0"%char 0 IHd.
  - digit_step "1"%char 1 IHd.
  - digit_step "2"%char 2 IHd.
  - digit_step "3"%char 3 IHd.
  - digit_step "4"%char 4 IHd.
  - digit_step "5"%char 5 IHd.
  - digit_step "6"%char 6 IHd.
  - digit_step "7"%char 7 IHd.
  - digit_step "8"%char 8 IHd.
  - digit_step "9"%char 9 IHd.
Qed.

Lemma to_uint_head (p : positive) :
  exists (c : ascii) (k : positive) (l : Decimal.uint),
    NilEmpty.string_of_uint (Pos.to_uint p)
    = String c (NilEmpty.string_of_uint l)
    /\ Ascii.eqb c "0" = false /\ digit c = Some (Z.pos k)
    /\ Pos.of_uint_acc l k = p.
Proof.
  pose proof (DecimalPos.Unsigned.of_to p) as O.
  pose proof (DecimalPos.Unsigned.to_of (Pos.to_uint p)) as T.
  rewrite O in T. simpl N.to_uint in T.
  pose proof (DecimalPos.Unsigned.to_uint_nonzero p) as NZ.
  pose proof (DecimalPos.Unsigned.to_uint_nonnil p) as NN.
  destruct (Pos.to_uint p) as [|l|l|l|l|l|l|l|l|l|l] eqn:D;
    try congruence.
  - exfalso. rewrite DecimalFacts.unorm_D0 in T.
    unfold Decimal.unorm in T.
    destruct (Decimal.nzhead l) as [|u|u|u|u|u|u|u|u|u|u] eqn:Z;
      try congruence.
    apply (DecimalFacts.nzhead_nonzero l u). congruence.
  - exists "1"%char, 1%positive, l. simpl in O. injection O as O. repeat split; auto.
  - exists "2"%char, 2%positive, l. simpl in O. injection O as O. repeat split; auto.
  - exists "3"%char, 3%positive, l. simpl in O. injection O as O. repeat split; auto.
  - exists "4"%char, 4%positive, l. simpl in O. injection O as O. repeat split; auto.
  - exists "5"%char, 5%positive, l. simpl in O. injection O as O. repeat split; auto.
  - exists "6"%char, 6%positive, l. simpl in O. injection O as O. repeat split; auto.
  - exists "7"%char, 7%positive, l. simpl in O. injection O as O. repeat split; auto.
  - exists "8"%char, 8%positive, l. simpl in O. injection O as O. repeat split; auto.
  - exists "9"%char, 9%positive, l. simpl in O. injection O as O. repeat split; auto.
Qed.

Lemma unsigned_int_to_uint (p : positive) :
  NilZero.string_of_uint (Pos.to_uint p)
  = NilEmpty.string_of_uint (Pos.to_uint p)
  /\ unsigned_int (NilEmpty.string_of_uint (Pos.to_uint p)) = Some (Z.pos p).
Proof.
  split.
  - pose proof (DecimalPos.Unsigned.to_uint_nonnil p).
    now destruct (Pos.to_uint p).
  - destruct (to_uint_head p) as (c & k & l & E & C & Dg & O).
    rewrite E. unfold unsigned_int. rewrite C. cbn [digits]. rewrite Dg.
    change (0 * 10 + Z.pos k) with (Z.pos k).
    now rewrite digits_of_uint_acc, O.
Qed.

(** What [(string)] writes for an integer, [FILTER_VALIDATE_INT] reads
    back. *)
Lemma filter_validate_int_reads_back (z : Z) :
  PHP_INT_MIN <= z <= PHP_INT_MAX ->
  filter_validate_int (string_of_Z z) = Some z.
Proof.
  intros R. unfold string_of_Z.
  assert (In_range : (PHP_INT_MIN <=? z) && (z <=? PHP_INT_MAX) = true).
  { apply andb_true_iff. split; apply Z.leb_le; lia. }
  destruct z as [|p|p]; [reflexivity| |].
  - cbn [Z.to_int NilZero.string_of_int].
    destruct (unsigned_int_to_uint p) as [E U]. rewrite E.
    unfold filter_validate_int.
    rewrite filter_trim_no_space by apply string_of_uint_no_space.
    destruct (to_uint_head p) as (c & k & l & Eh & C & Dg & O).
    rewrite Eh in *.
    assert (Cm : Ascii.eqb c "-" = false).
    { destruct (Ascii.eqb_spec c "-") as [->|]; [discriminate Dg | reflexivity]. }
    assert (Cp : Ascii.eqb c "+" = false).
    { destruct (Ascii.eqb_spec c "+") as [->|]; [discriminate Dg | reflexivity]. }
    rewrite Cm, Cp, U. now rewrite In_range.
  - cbn [Z.to_int NilZero.string_of_int].
    destruct (unsigned_int_to_uint p) as [E U]. rewrite E.
    unfold filter_validate_int.
    rewrite filter_trim_no_space
      by (simpl; apply string_of_uint_no_space).
    change (Ascii.eqb "-" "-") with true. cbv iota. rewrite U.
    cbn [option_map Z.opp]. now rewrite In_range.
Qed.

Lemma string_of_Z_not_empty (z : Z) : String.eqb (string_of_Z z) "" = false.
Proof.
  unfold string_of_Z. destruct z as [|p|p]; [reflexivity| |];
    cbn [Z.to_int NilZero.string_of_int].
  - destruct (unsigned_int_to_uint p) as [-> _].
    destruct (to_uint_head p) as (c & k & l & -> & _). reflexivity.
  - reflexivity.
Qed.

Section PageNumbers.

Context `{Builtins}.

(** X14: a [page] or [page_size] given as the decimal writing of an
    integer of the platform's range is stored as that integer, which is
    what the pagination expressions then read. *)
Theorem page_number_stored (key : string) (z : Z) :
  key = "page" \/ key = "page_size" ->
  PHP_INT_MIN <= z <= PHP_INT_MAX ->
  exists params : array pvalue,
    validateAndSanitizeParams [(key, string_of_Z z)] = Ok params
    /\ params = [(key, PInt z)]
    /\ isset_int params key = Some z.
Proof.
  intros K R. exists [(key, PInt z)]. split; [|split; [reflexivity|]].
  - unfold validateAndSanitizeParams. simpl. unfold sanitize_entry.
    rewrite string_of_Z_not_empty, (filter_validate_int_reads_back z R).
    destruct K as [-> | ->]; reflexivity.
  - unfold isset_int. simpl. now rewrite String.eqb_refl.
Qed.

End PageNumbers.

(** ** The further properties on concrete requests *)

Section FurtherScenarios.

#[local] Existing Instance Iso.builtins.

Lemma response_page_bounds_witness :
  exists r : Response,
    processRequest scenario [("team", "A")] = Ok r
    /\ 1 <= page r /\ 1 <= page_size r <= MAX_PAGE_SIZE
    /\ count (matches r) <= page_size r
    /\ count (matches r) <= total_matches r.
Proof.
  eexists. split; [reflexivity|].
  pose proof (@response_page_bounds Iso.builtins scenario [("team", "A")] _ eq_refl)
    as (P1 & P2 & P3 & P4 & _).
  exact (conj P1 (conj P2 (conj P3 P4))).
Defined.

Lemma sanitized_entries_witness :
  validateAndSanitizeParams [("team", "A&B")] = Ok [("team", PStr "A&amp;B")]
  /\ In ("team", PStr "A&amp;B") [("team", PStr "A&amp;B")]
  /\ exists value : string,
       In ("team", value) [("team", "A&B")] /\ value <> "".
Proof.
  assert (I : In ("team", PStr "A&amp;B") [("team", PStr "A&amp;B")])
    by (left; reflexivity).
  split; [reflexivity|]. split; [exact I|].
  destruct (@sanitized_entries Iso.builtins [("team", "A&B")] _ "team"
              (PStr "A&amp;B") eq_refl I)
    as (value & J & N & _).
  exists value. split; assumption.
Defined.


Lemma paginated_request_returns_nothing_witness :
  let GET := [("home_team", "Z"); ("page", "2")] in
  NoDup (map fst GET)
  /\ processRequest scenario [("page", "2")] = TypeError
  /\ exists r : Response,
       processRequest scenario GET = Ok r
       /\ page r = 2 /\ total_matches r = 0 /\ matches r = [].
Proof.
  intros GET.
  assert (U : NoDup (map fst GET)).
  { constructor; [simpl; intros [E|[]]; discriminate|].
    constructor; [simpl; tauto | constructor]. }
  split; [exact U|]. split; [reflexivity|].
  eexists. split; [reflexivity|]. split; [reflexivity|].
  apply (@paginated_request_returns_nothing Iso.builtins scenario GET
           "page" "2" _ (or_introl eq_refl) U).
  - right. left. reflexivity.
  - discriminate.
  - reflexivity.
Defined.

Lemma team_analysis_counts_all_witness :
  exists (r : Response) (analysis : TeamAnalysis),
    processRequest scenario [("home_team", "A"); ("away_team", "B")] = Ok r
    /\ team_analysis r = Some analysis
    /\ matches_count analysis = total_matches r.
Proof.
  eexists. eexists. split; [reflexivity|]. split; [reflexivity|].
  apply (@team_analysis_counts_all Iso.builtins scenario
           [("home_team", "A"); ("away_team", "B")] _ _ eq_refl eq_refl).
Defined.

Lemma sanitized_strings_without_markup_witness :
  validateAndSanitizeParams [("team", "<b>")] = Ok [("team", PStr "&lt;b&gt;")]
  /\ has_markup "&lt;b&gt;" = false.
Proof.
  split; [reflexivity|].
  apply (@sanitized_strings_without_markup Iso.builtins [("team", "<b>")]
           [("team", PStr "&lt;b&gt;")] "team" _ eq_refl).
  left. reflexivity.
Defined.

Lemma plain_value_stored_unchanged_witness :
  htmlspecialchars "Arsenal" = "Arsenal"
  /\ validateAndSanitizeParams [("team", "Arsenal")]
     = Ok [("team", PStr "Arsenal")].
Proof.
  apply (@plain_value_stored_unchanged Iso.builtins "team" "Arsenal");
    [reflexivity | discriminate | reflexivity | reflexivity].
Defined.


Lemma score_parameter_exact_witness :
  score_value first_leg (str_replace_score_ "score_home") = Some (VInt 2)
  /\ matchesScore first_leg "score_home" (string_of_Z 2) = true
  /\ matchesScore no_score "score_home" "2" = false.
Proof.
  split; [reflexivity|]. split.
  - apply (proj1 (@score_parameter_exact Iso.builtins first_leg "score_home" 2)
             2 eq_refl).
    reflexivity.
  - apply (proj2 (proj2 (proj2 (@score_parameter_exact Iso.builtins no_score
                                  "score_home" 0)))).
    reflexivity.
Defined.

Lemma date_parameter_since_witness :
  new_DateTime "2024-02-01" = Some 1706745600
  /\ matchesDate third_leg "2024-02-01" = true
  /\ matchesDate third_leg "2024-01-01" = true.
Proof.
  split; [reflexivity|]. split; [reflexivity|].
  apply (proj2 (@date_parameter_since Iso.builtins third_leg "2024-02-01" 1706745600 eq_refl)
           "2024-01-01" 1704067200).
  - reflexivity.
  - discriminate.
  - reflexivity.
Defined.


Lemma filterMatches_idempotent_witness :
  filterMatches scenario (strings [("home_team", "A")])
  = Ok [first_leg; third_leg]
  /\ filterMatches [first_leg; third_leg] (strings [("home_team", "A")])
     = Ok [first_leg; third_leg].
Proof.
  split; [reflexivity|].
  apply (@filterMatches_idempotent Iso.builtins scenario [first_leg; third_leg]
           [("home_team", "A")]).
  reflexivity.
Defined.

Lemma usort_by_date_sorted_stable_witness :
  StronglySorted (fun a b => timestamp b <= timestamp a)
    (usort by_date [no_date; third_leg; old_match]).
Proof.
  apply (@usort_by_date_sorted_stable Iso.builtins [no_date; third_leg; old_match]).
  intros m [<-|[<-|[<-|[]]]]; discriminate.
Defined.

Lemma average_goals_sums_witness :
  sums_exact [first_leg; no_score]
  /\ [first_leg; no_score] <> []
  /\ average_home_goals (calculateAverageGoals [first_leg; no_score])
     = round (div (total home_goals [first_leg; no_score])
                (count [first_leg; no_score])) 2.
Proof.
  assert (S : sums_exact [first_leg; no_score])
    by (apply Z.leb_le; reflexivity).
  assert (N : [first_leg; no_score] <> []) by discriminate.
  split; [exact S|]. split; [exact N|].
  apply (proj1 (proj2 (proj2 (@average_goals_sums Iso.builtins
                                [first_leg; no_score] S))) N).
Defined.

Lemma form_index_range_witness :
  (0 <= calculateFormIndex scenario "A" 5
   /\ calculateFormIndex scenario "A" 5 <= 100)%Q.
Proof.
  apply (@form_index_range Iso.builtins scenario "A" 5). discriminate.
Defined.


Lemma team_spelling_irrelevant_witness :
  strcasecmp "a" "A" = 0
  /\ predictWinner "a" "b" scenario = predictWinner "A" "B" scenario.
Proof.
  split; [reflexivity|].
  apply (@team_spelling_irrelevant Iso.builtins scenario 5 "a" "A" "b" "B");
    reflexivity.
Defined.

Lemma decisive_prediction_confidence_witness :
  winner (predictWinner "A" "B" [first_leg]) = "home"
  /\ (33 # 100 <= confidence (predictWinner "A" "B" [first_leg]))%Q.
Proof.
  split; [reflexivity|].
  apply (proj1 (@decisive_prediction_confidence Iso.builtins "A" "B" [first_leg])).
  reflexivity.
Defined.

Lemma team_analysis_both_orientations_witness :
  strcasecmp "A" "B" <> 0
  /\ count (teamAnalysisMatches "A" "B" scenario)
     = count (h2hMatches "A" "B" scenario) + count (h2hMatches "B" "A" scenario).
Proof.
  assert (D : strcasecmp "A" "B" <> 0) by discriminate.
  split; [exact D|].
  apply (proj2 (team_analysis_both_orientations "A" "B" scenario) D).
Defined.

Lemma analysis_and_prediction_together_witness :
  exists r : Response,
    processRequest scenario [("home_team", "A")] = Ok r
    /\ team_analysis r = None /\ prediction r = None.
Proof.
  eexists. split; [reflexivity|].
  apply (proj1 (proj2 (@analysis_and_prediction_together Iso.builtins scenario
                         [("home_team", "A")] _ eq_refl))).
  right. reflexivity.
Defined.

Lemma statistics_order_independent_witness :
  Permutation [first_leg; third_leg] [third_leg; first_leg]
  /\ (forall m, In m [first_leg; third_leg] -> integer_scored m = true)
  /\ sums_exact [first_leg; third_leg]
  /\ calculateExpectedGoals "A" [first_leg; third_leg]
     = calculateExpectedGoals "A" [third_leg; first_leg]
  /\ predictWinner "A" "B" [first_leg; third_leg]
     = predictWinner "A" "B" [third_leg; first_leg].
Proof.
  assert (P : Permutation [first_leg; third_leg] [third_leg; first_leg])
    by apply perm_swap.
  assert (I : forall m, In m [first_leg; third_leg] -> integer_scored m = true)
    by (intros m [<-|[<-|[]]]; reflexivity).
  assert (S : sums_exact [first_leg; third_leg])
    by (apply Z.leb_le; reflexivity).
  split; [exact P|]. split; [exact I|]. split; [exact S|].
  destruct (@statistics_order_independent Iso.builtins _ _ "A" "A" "B" P I S)
    as (_ & _ & _ & _ & _ & G & W).
  split; [exact G | exact W].
Defined.

Lemma page_number_stored_witness :
  PHP_INT_MIN <= 37 <= PHP_INT_MAX
  /\ validateAndSanitizeParams [("page", string_of_Z 37)] = Ok [("page", PInt 37)].
Proof.
  assert (R : PHP_INT_MIN <= 37 <= PHP_INT_MAX) by (split; discriminate).
  split; [exact R|].
  destruct (@page_number_stored Iso.builtins "page" 37 (or_introl eq_refl) R)
    as (params & V & -> & _).
  exact V.
Defined.

Lemma integer_named_request_raises_witness :
  In ("123", "x") [("team", "A"); ("123", "x")]
  /\ integer_key "123" = true
  /\ integer_key "-5" = true
  /\ integer_key "007" = false
  /\ processRequest scenario [("team", "A"); ("123", "x")] = TypeError
  /\ processRequest [] [("123", "x")] = TypeError.
Proof.
  assert (I : In ("123", "x") [("team", "A"); ("123", "x")])
    by (right; left; reflexivity).
  split; [exact I|]. split; [reflexivity|]. split; [reflexivity|].
  split; [reflexivity|]. split.
  - apply (proj2 (@integer_named_request_raises Iso.builtins scenario _ "123" "x"
                    I eq_refl ltac:(discriminate))).
  - reflexivity.
Defined.

End FurtherScenarios.
